(** * Dataset viewer: index builder, path sandbox and derivative cache

    A shallow embedding of [viewer/server.py] and [viewer_colab/server.py].
    Both files share [split_tags], [safe_relative], [to_file_url] and
    [load_items]; the Colab variant adds the progress callback, the
    derivative cache ([build_resized], thumbnail and display URLs) and the
    background [build_items] task.

    Python objects are modelled as follows.
    - [str] is [string], holding the UTF-8 encoding of the text: comparing
      two encodings byte by byte orders them as Python orders the texts, by
      code point.  A text file holds bytes, decoded by the run-time.
    - [pathlib.Path] is the record [Path] (anchor flag and components).
    - a parsed JSON document is the inductive [json]; a JSON object is a
      [gmap string json], as [json.loads] builds a [dict].
    - exceptions are values of [exn]; a call that may raise returns a
      [result].
    - the file system is an explicit value: its entries in the order the
      operating system enumerates them, the canonicalisation function
      behind [Path.resolve], and the errors [os.stat] reports for a path
      other than its absence.
    - library code that is not part of the repository ([json.loads],
      [urllib.parse.quote], [mimetypes.guess_type], the Unicode tables,
      the Pillow operations, the generator behind [Path.rglob]) is taken
      through the classes [Runtime], [PIL] and [Glob]. *)

From stdpp Require Import base list strings gmap pretty.
From Stdlib Require Import Ascii Sorting.Sorted Sorting.Permutation.

#[local] Set Warnings "-register-all".

#[local] Open Scope string_scope.
#[local] Open Scope list_scope.
#[local] Open Scope nat_scope.

(** ** Exceptions and results *)

(** The subclasses of [Exception] that the modelled operations raise.
    [OSError] stands for the errors of a system call that have no class of
    their own here (a name that is too long, a permission that is
    missing). *)
Inductive exn :=
| AttributeError
| TypeError
| ValueError
| JSONDecodeError
| UnicodeDecodeError
| FileNotFoundError
| IsADirectoryError
| NotADirectoryError
| FileExistsError
| OSError
| UnidentifiedImageError.

#[global] Instance exn_eq_dec : EqDecision exn.
Proof. solve_decision. Defined.

Inductive result (A : Type) :=
| Ok (a : A)
| Raise (e : exn).
Arguments Ok {A} a.
Arguments Raise {A} e.

#[global] Instance result_ret : MRet result := λ A a, Ok a.
#[global] Instance result_bind : MBind result := λ A B k r,
  match r with
  | Ok a => k a
  | Raise e => Raise e
  end.
#[global] Instance result_fmap : FMap result := λ A B f r,
  match r with
  | Ok a => Ok (f a)
  | Raise e => Raise e
  end.

(** ** JSON values *)

Inductive json :=
| JNull
| JBool (b : bool)
| JNum (n : Z)
| JStr (s : string)
| JArr (l : list json)
| JObj (m : gmap string json).

(** Python truth value of a decoded JSON value. *)
Definition truthy (v : json) : bool :=
  match v with
  | JNull => false
  | JBool b => b
  | JNum n => bool_decide (n ≠ 0%Z)
  | JStr s => bool_decide (s ≠ "")
  | JArr l => negb (length l =? 0)%nat
  | JObj m => negb (size m =? 0)%nat
  end.

(** [obj.get(key, default)]: only a [dict] has the method. *)
Definition json_get (obj : json) (key : string) (dflt : json) : result json :=
  match obj with
  | JObj m => Ok (default dflt (m !! key))
  | _ => Raise AttributeError
  end.

(** ** Library functions used by the servers *)

Class Runtime := {
  (** [json.loads]; a malformed document raises [JSONDecodeError] *)
  json_loads : string → result json;
  (** decoding of the bytes of a whole file as UTF-8 *)
  utf8_decode : string → option string;
  (** for bytes that are not UTF-8: the lines a text file opened on them
      yields before its decoder meets the error (the file is decoded a
      buffer at a time while it is iterated) *)
  lines_before_error : string → list string;
  (** [s.lower()] for a text that is not ASCII, from the Unicode tables *)
  unicode_lower : string → string;
  (** [urllib.parse.quote] and [unquote] *)
  quote : string → string;
  unquote : string → string;
  (** [mimetypes.guess_type(name)[0]] *)
  guess_type : string → option string;
}.

(** ** Strings *)

Module Str.

(** [s.startswith(p)] and the rest after the prefix, [s[len(p):]]. *)
Fixpoint strip_prefix (p s : string) : option string :=
  match p, s with
  | EmptyString, _ => Some s
  | String a p', String b s' => if decide (a = b) then strip_prefix p' s' else None
  | String _ _, EmptyString => None
  end.

Definition startswith (s p : string) : bool := bool_decide (is_Some (strip_prefix p s)).

(** A text of ASCII characters only: every byte is below 128. *)
Fixpoint is_ascii (s : string) : bool :=
  match s with
  | EmptyString => true
  | String c s' => (nat_of_ascii c <? 128)%nat && is_ascii s'
  end.

(** [c.lower()] for an ASCII character. *)
Definition lower_ascii (c : ascii) : ascii :=
  let n := nat_of_ascii c in
  if (65 <=? n)%nat && (n <=? 90)%nat then ascii_of_nat (n + 32) else c.

Fixpoint lower_ascii_text (s : string) : string :=
  match s with
  | EmptyString => EmptyString
  | String c s' => String (lower_ascii c) (lower_ascii_text s')
  end.

(** [s.lower()]: on ASCII text the letters [A] to [Z] are lowered; any
    other text goes through the Unicode tables of the run-time. *)
Definition lower `{Runtime} (s : string) : string :=
  if is_ascii s then lower_ascii_text s else unicode_lower s.

(** The text with the given bytes. *)
Definition utf8 (bytes : list nat) : string :=
  fold_right (λ n s, String (ascii_of_nat n) s) EmptyString bytes.

(** The characters [str.split()] and [str.strip()] take as white space,
    each in UTF-8: U+0009 to U+000D, U+001C to U+0020, U+0085, U+00A0,
    U+1680, U+2000 to U+200A, U+2028, U+2029, U+202F, U+205F and U+3000. *)
Definition white_space : list string :=
  ((λ n, utf8 [n]) <$> [9; 10; 11; 12; 13; 28; 29; 30; 31; 32])
  ++ [utf8 [194; 133]; utf8 [194; 160]; utf8 [225; 154; 128]]
  ++ ((λ n, utf8 [226; 128; n]) <$> seq 128 11)
  ++ [utf8 [226; 128; 168]; utf8 [226; 128; 169]; utf8 [226; 128; 175];
      utf8 [226; 129; 159]; utf8 [227; 128; 128]].

(** The rest of [s] after the first of [ps] it starts with. *)
Fixpoint first_prefix (ps : list string) (s : string) : option string :=
  match ps with
  | [] => None
  | p :: ps' =>
      match strip_prefix p s with
      | Some r => Some r
      | None => first_prefix ps' s
      end
  end.

(** The rest of [s] after one white-space character at its head. *)
Definition space_prefix (s : string) : option string := first_prefix white_space s.

(** [s.lstrip()]; [skip] counts the bytes still to pass of the
    white-space character being dropped. *)
Fixpoint lstrip_from (skip : nat) (s : string) : string :=
  match s with
  | EmptyString => EmptyString
  | String _ s' =>
      match skip with
      | S k => lstrip_from k s'
      | 0 =>
          match space_prefix s with
          | Some r => lstrip_from (String.length s' - String.length r) s'
          | None => s
          end
      end
  end.

Definition lstrip (s : string) : string := lstrip_from 0 s.

(** [s.rstrip()]: a byte is kept unless all that is left from it on is
    white space. *)
Fixpoint rstrip (s : string) : string :=
  match s with
  | EmptyString => EmptyString
  | String c s' => if decide (lstrip s = "") then EmptyString else String c (rstrip s')
  end.

(** [s.strip()] *)
Definition strip (s : string) : string := rstrip (lstrip s).

(** [s.split()] with no separator: maximal runs without white space.
    [cur] is the token being read, [skip] as in [lstrip_from]. *)
Fixpoint split_ws_from (skip : nat) (cur : string) (s : string) : list string :=
  match s with
  | EmptyString => if decide (cur = "") then [] else [cur]
  | String c s' =>
      match skip with
      | S k => split_ws_from k cur s'
      | 0 =>
          match space_prefix s with
          | Some r =>
              (if decide (cur = "") then [] else [cur])
              ++ split_ws_from (String.length s' - String.length r) "" s'
          | None => split_ws_from 0 (cur +:+ String c "") s'
          end
      end
  end.

Definition split_ws (s : string) : list string := split_ws_from 0 "" s.

(** [s.split(sep)] for a one-character separator: never empty. *)
Fixpoint split_on (sep : ascii) (s : string) : list string :=
  match s with
  | EmptyString => [""]
  | String c s' =>
      if decide (c = sep) then "" :: split_on sep s'
      else match split_on sep s' with
           | [] => [String c ""]
           | w :: ws => String c w :: ws
           end
  end.

(** ["/".join(l)] *)
Fixpoint join (sep : string) (l : list string) : string :=
  match l with
  | [] => ""
  | [w] => w
  | w :: ws => w +:+ sep +:+ join sep ws
  end.

(** What reading in text mode makes of the decoded text: a carriage
    return, with the line feed after it if there is one, becomes a line
    feed. *)
Fixpoint universal_newlines (s : string) : string :=
  match s with
  | EmptyString => EmptyString
  | String c s' =>
      if decide (c = "013"%char) then
        String "010"
          match s' with
          | String c' s'' =>
              if decide (c' = "010"%char) then universal_newlines s''
              else universal_newlines s'
          | EmptyString => EmptyString
          end
      else String c (universal_newlines s')
  end.

(** Iterating a text file: each line keeps its newline; a last line
    without one is yielded too. *)
Fixpoint lines_from (cur : string) (s : string) : list string :=
  match s with
  | EmptyString => if decide (cur = "") then [] else [cur]
  | String c s' =>
      if decide (c = "010"%char)
      then (cur +:+ String c "") :: lines_from "" s'
      else lines_from (cur +:+ String c "") s'
  end.

Definition lines (s : string) : list string := lines_from "" s.

(** [s.endswith(x)] *)
Definition endswith (s x : string) : bool :=
  (String.length x <=? String.length s)%nat
  && bool_decide (String.substring (String.length s - String.length x) (String.length x) s = x).

(** [s[:-n]] for [n > 0] *)
Definition drop_last (n : nat) (s : string) : string :=
  String.substring 0 (String.length s - n) s.

(** [s.rfind(".")]: index of the last dot. *)
Fixpoint rfind_dot (s : string) : option nat :=
  match s with
  | EmptyString => None
  | String c s' =>
      match rfind_dot s' with
      | Some i => Some (S i)
      | None => if decide (c = "."%char) then Some 0 else None
      end
  end.

End Str.

(** ** Paths *)

(** A [pathlib.Path] on a POSIX system: whether it starts at the root
    directory, and its components.  Components are never empty and never
    ["."]; [".."] is kept until the path is resolved. *)
Record Path := mkPath { is_absolute : bool; parts : list string }.

#[global] Instance Path_eq_dec : EqDecision Path.
Proof. solve_decision. Defined.

(** [Path(s)] *)
Definition Path_of (s : string) : Path :=
  {| is_absolute := Str.startswith s "/";
     parts := filter (λ w, w ≠ "" ∧ w ≠ ".") (Str.split_on "/" s) |}.

(** [Path(v)] for a decoded JSON value: anything but a [str] is refused. *)
Definition Path_of_json (v : json) : result Path :=
  match v with
  | JStr s => Ok (Path_of s)
  | _ => Raise TypeError
  end.

(** [p / q] *)
Definition joinpath (p q : Path) : Path :=
  if is_absolute q then q
  else {| is_absolute := is_absolute p; parts := parts p ++ parts q |}.
Infix "</>" := joinpath (at level 40, left associativity).

(** [p.name] *)
Definition name_of (p : Path) : string := default "" (last (parts p)).

(** [p.suffix]: from the last dot of the name, unless that dot is its
    first or its last character. *)
Definition suffix (p : Path) : string :=
  let name := name_of p in
  match Str.rfind_dot name with
  | Some i =>
      if (0 <? i)%nat && (i <? String.length name - 1)%nat
      then String.substring i (String.length name - i) name
      else ""
  | None => ""
  end.

(** [p.as_posix()], which is also [str(p)] here. *)
Definition as_posix (p : Path) : string :=
  if is_absolute p then "/" +:+ Str.join "/" (parts p)
  else match parts p with
       | [] => "."
       | _ => Str.join "/" (parts p)
       end.

(** [p.parent] *)
Definition parent (p : Path) : Path :=
  {| is_absolute := is_absolute p; parts := removelast (parts p) |}.

(** [l[len(r):]] when [l] starts with [r]. *)
Fixpoint list_strip_prefix (r l : list string) : option (list string) :=
  match r, l with
  | [], _ => Some l
  | a :: r', b :: l' => if decide (a = b) then list_strip_prefix r' l' else None
  | _ :: _, [] => None
  end.

(** [target.relative_to(root)]: [ValueError] when [target] does not start
    with [root], component by component. *)
Definition relative_to (target root : Path) : result Path :=
  if bool_decide (is_absolute target = is_absolute root) then
    match list_strip_prefix (parts root) (parts target) with
    | Some rel => Ok {| is_absolute := false; parts := rel |}
    | None => Raise ValueError
    end
  else Raise ValueError.

(** ** The file system *)

(** What a location holds: a regular file the server can read, with its
    bytes, a directory, or a symbolic link that cannot be followed (where
    the other links lead is part of [fs_resolve]). *)
Inductive node :=
| File (data : string)
| Dir
| Symlink.

#[global] Instance node_eq_dec : EqDecision node.
Proof. solve_decision. Defined.

(** The directory entries by location, in the order the operating system
    enumerates them; the canonical absolute form of every path
    ([Path.resolve()]: symbolic links followed, [".."] normalised, whether
    or not the path exists); and the error a system call on a path
    reports, if any, other than the ones that tell its absence (a name
    that is too long, a directory that may not be searched). *)
Record filesystem := mkFs {
  fs_resolve : Path → list string;
  fs_entries : list (list string * node);
  fs_fault : Path → option exn;
}.

Fixpoint assoc (q : list string) (es : list (list string * node)) : option node :=
  match es with
  | [] => None
  | (k, n) :: es' => if decide (k = q) then Some n else assoc q es'
  end.

(** [p.resolve()] *)
Definition resolve (fs : filesystem) (p : Path) : Path :=
  {| is_absolute := true; parts := fs_resolve fs p |}.

(** What a canonical location holds; the root directory is always there,
    a link that cannot be followed leads to nothing. *)
Definition node_at (fs : filesystem) (q : list string) : option node :=
  match q with
  | [] => Some Dir
  | _ => match assoc q (fs_entries fs) with
         | Some Symlink => None
         | o => o
         end
  end.

(** The paths the operating system goes through to reach [p] as it is
    written: [p] cut after each of its components but the last. *)
Definition through (p : Path) : list Path :=
  (λ k, mkPath (is_absolute p) (take k (parts p))) <$> seq 1 (length (parts p) - 1).

(** Each of them has to be a directory, also when [".."] leaves it again
    at once. *)
Definition reachable (fs : filesystem) (p : Path) : bool :=
  forallb (λ q, bool_decide (node_at fs (fs_resolve fs q) = Some Dir)) (through p).

(** What [p], as it is written, denotes. *)
Definition fs_stat (fs : filesystem) (p : Path) : option node :=
  if reachable fs p then node_at fs (fs_resolve fs p) else None.

(** [os.stat(p)]; [Ok None] stands for the errors that tell that nothing
    is there ([ENOENT], [ENOTDIR], [ELOOP]). *)
Definition stat (fs : filesystem) (p : Path) : result (option node) :=
  match fs_fault fs p with
  | Some e => Raise e
  | None => Ok (fs_stat fs p)
  end.

(** [p.exists()]: every other error of [os.stat] is raised again. *)
Definition exists_ (fs : filesystem) (p : Path) : result bool :=
  n ← stat fs p; Ok (bool_decide (is_Some n)).

(** Opening [p] and reading all of it. *)
Definition read_bytes (fs : filesystem) (p : Path) : result string :=
  n ← stat fs p;
  match n with
  | Some (File data) => Ok data
  | Some Dir => Raise IsADirectoryError
  | _ => Raise FileNotFoundError
  end.

(** [root.rglob("*")] on a file system that does not change meanwhile:
    every entry strictly below [root], as [root / rel]. *)
Definition rglob (fs : filesystem) (root : Path) : list Path :=
  omap (λ e : list string * node,
          match list_strip_prefix (fs_resolve fs root) e.1 with
          | Some (c :: r) => Some {| is_absolute := is_absolute root;
                                     parts := parts root ++ c :: r |}
          | _ => None
          end) (fs_entries fs).

(** [p.read_text(encoding="utf-8")] *)
Definition read_text `{Runtime} (fs : filesystem) (p : Path) : result string :=
  data ← read_bytes fs p;
  match utf8_decode data with
  | Some s => Ok (Str.universal_newlines s)
  | None => Raise UnicodeDecodeError
  end.

(** The lines [for line in handle] yields for a file with these bytes,
    and the exception that ends the iteration, if any. *)
Definition text_lines `{Runtime} (data : string) : list string * option exn :=
  match utf8_decode data with
  | Some s => (Str.lines (Str.universal_newlines s), None)
  | None => (lines_before_error data, Some UnicodeDecodeError)
  end.

(** ** Shared helpers of both servers *)

Definition IMAGE_EXTS : list string := [".jpg"; ".jpeg"; ".png"; ".webp"; ".gif"].
Definition THUMB_SUFFIX : string := ".thumb.jpg".
Definition DISPLAY_SUFFIX : string := ".display.jpg".

(** [split_tags(value)]: [(value or "").split()], empty tokens dropped. *)
Definition split_tags (value : json) : result (list string) :=
  match (if truthy value then value else JStr "") with
  | JStr s => Ok (filter (λ t, t ≠ "") (Str.split_ws s))
  | _ => Raise AttributeError
  end.

(** [safe_relative(root, target)]: [None] is the rejection value.
    [relative_to] raises nothing but the [ValueError] that is caught. *)
Definition safe_relative (fs : filesystem) (root target : Path) : option Path :=
  let root := resolve fs root in
  let target := resolve fs target in
  match relative_to target root with
  | Ok rel => Some rel
  | Raise _ => None
  end.

Definition to_file_url `{Runtime} (rel_path : Path) : string :=
  "/files/" +:+ quote (as_posix rel_path).

Definition to_thumb_url `{Runtime} (rel_path : Path) : string :=
  "/thumbs/" +:+ quote (as_posix rel_path +:+ THUMB_SUFFIX).

Definition make_thumb_path (root rel_path : Path) : Path :=
  root </> Path_of ".thumbs" </> Path_of (as_posix rel_path +:+ THUMB_SUFFIX).

Definition to_display_url `{Runtime} (rel_path : Path) : string :=
  "/display/" +:+ quote (as_posix rel_path +:+ DISPLAY_SUFFIX).

Definition make_display_path (root rel_path : Path) : Path :=
  root </> Path_of ".display" </> Path_of (as_posix rel_path +:+ DISPLAY_SUFFIX).

(** ** Dataset items *)

(** The four tag slots of an item.  Manifest rows copy whatever JSON value
    the row holds; a directory scan stores lists of strings. *)
Record Tags := mkTags {
  artist : json;
  copyright : json;
  character : json;
  general : json;
}.

(** One entry of the index.  [thumb_url] and [display_url] are only
    present in the Colab server. *)
Record Item := mkItem {
  name : string;
  image_url : string;
  thumb_url : option string;
  display_url : option string;
  caption : string;
  tags : Tags;
}.

(** Which of the two servers: [viewer/server.py] or
    [viewer_colab/server.py]. *)
Inductive variant := Local | Colab.

Definition json_strings (l : list string) : json := JArr (JStr <$> l).

Definition empty_tags : Tags :=
  {| artist := JArr []; copyright := JArr []; character := JArr []; general := JArr [] |}.

(** ** Sorting: [items.sort(key=lambda item: item["name"].lower())] *)

Definition sort_key `{Runtime} (it : Item) : string := Str.lower (name it).

Definition key_le `{Runtime} (a b : Item) : Prop :=
  String.leb (sort_key a) (sort_key b) = true.

(** [list.sort] is stable: an item goes before the items already placed
    whose key is not smaller. *)
Fixpoint insert_item `{Runtime} (x : Item) (l : list Item) : list Item :=
  match l with
  | [] => [x]
  | y :: l' =>
      if String.leb (sort_key x) (sort_key y) then x :: y :: l'
      else y :: insert_item x l'
  end.

Fixpoint sort_items `{Runtime} (l : list Item) : list Item :=
  match l with
  | [] => []
  | x :: l' => insert_item x (sort_items l')
  end.

(** ** The index builder: [load_items] *)

Section load_items.
Context `{Runtime}.
(** [St] is whatever the progress callback updates (the item store in
    the Colab server). *)
Context {St : Type}.
Variable v : variant.
Variable fs : filesystem.
Variable root : Path.
Variable progress : option (nat → St → St).

Definition make_item (path rel : Path) (caption : string) (tags : Tags) : Item :=
  {| name := name_of path;
     image_url := to_file_url rel;
     thumb_url := match v with Colab => Some (to_thumb_url rel) | Local => None end;
     display_url := match v with Colab => Some (to_display_url rel) | Local => None end;
     caption := caption;
     tags := tags |}.

(** [if progress and idx % 500 == 0: progress(idx)] *)
Definition report (idx : nat) (st : St) : St :=
  match progress with
  | Some f => if (idx mod 500 =? 0)%nat then f idx st else st
  | None => st
  end.

(** [if not p.is_absolute(): p = root / p] *)
Definition anchored (p : Path) : Path := if is_absolute p then p else root </> p.

(** [caption = ""; if caption_path.exists(): caption = ....strip()] *)
Definition read_caption (caption_path : Path) : result string :=
  found ← exists_ fs caption_path;
  if found : bool
  then text ← read_text fs caption_path; Ok (Str.strip text)
  else Ok "".

(** The body of the manifest loop for one line: [Ok None] is [continue]. *)
Definition manifest_row (line : string) : result (option Item) :=
  let line := Str.strip line in
  if decide (line = "") then Ok None else
  match json_loads line with
  | Raise JSONDecodeError => Ok None
  | Raise e => Raise e
  | Ok row =>
      p ← json_get row "image_path" (JStr "");
      img_path ← Path_of_json p;
      let img_path := anchored img_path in
      match safe_relative fs root img_path with
      | None => Ok None
      | Some rel =>
          found ← exists_ fs img_path;
          if negb found then Ok None else
          c ← json_get row "caption_path" (JStr "");
          caption_path ← Path_of_json c;
          let caption_path := anchored caption_path in
          caption ← read_caption caption_path;
          t_artist ← json_get row "artist" (JArr []);
          t_copyright ← json_get row "copyright" (JArr []);
          t_character ← json_get row "character" (JArr []);
          t_general ← json_get row "general" (JArr []);
          Ok (Some (make_item img_path rel caption
                      (mkTags t_artist t_copyright t_character t_general)))
      end
  end.

(** [for idx, line in enumerate(handle, start=1)] *)
Fixpoint manifest_loop (lines : list string) (idx : nat) (items : list Item) (st : St)
  : St * result (list Item) :=
  match lines with
  | [] => (st, Ok items)
  | line :: rest =>
      match manifest_row line with
      | Raise e => (st, Raise e)
      | Ok None => manifest_loop rest (S idx) items st
      | Ok (Some it) => manifest_loop rest (S idx) (items ++ [it]) (report idx st)
      end
  end.

(** The [try] block that fills the tag slots from the side-car: the
    slots assigned before an exception keep their value. *)
Definition read_sidecar (json_path : Path) (tags : Tags) : Tags * result () :=
  match (text ← read_text fs json_path; json_loads text) with
  | Raise e => (tags, Raise e)
  | Ok meta =>
      match (x ← json_get meta "tag_string_artist" JNull; split_tags x) with
      | Raise e => (tags, Raise e)
      | Ok a =>
          let tags := mkTags (json_strings a) (copyright tags) (character tags) (general tags) in
          match (x ← json_get meta "tag_string_copyright" JNull; split_tags x) with
          | Raise e => (tags, Raise e)
          | Ok c =>
              let tags := mkTags (artist tags) (json_strings c) (character tags) (general tags) in
              match (x ← json_get meta "tag_string_character" JNull; split_tags x) with
              | Raise e => (tags, Raise e)
              | Ok ch =>
                  let tags :=
                    mkTags (artist tags) (copyright tags) (json_strings ch) (general tags) in
                  match (x ← json_get meta "tag_string_general" JNull; split_tags x) with
                  | Raise e => (tags, Raise e)
                  | Ok g =>
                      (mkTags (artist tags) (copyright tags) (character tags) (json_strings g),
                       Ok ())
                  end
              end
          end
      end
  end.

(** [tags = {...}; if json_path.exists(): try: ... except JSONDecodeError: pass] *)
Definition sidecar_tags (json_path : Path) : result Tags :=
  found ← exists_ fs json_path;
  if found : bool then
    match read_sidecar json_path empty_tags with
    | (tags, Ok _) => Ok tags
    | (tags, Raise JSONDecodeError) => Ok tags
    | (_, Raise e) => Raise e
    end
  else Ok empty_tags.

(** The body of the scan loop for one path: [Ok None] is [continue]. *)
Definition scan_path (path : Path) : result (option Item) :=
  if bool_decide (Str.lower (suffix path) ∉ IMAGE_EXTS) then Ok None else
  match safe_relative fs root path with
  | None => Ok None
  | Some rel =>
      let caption_path := Path_of (as_posix path +:+ ".caption.txt") in
      caption ← read_caption caption_path;
      let json_path := Path_of (as_posix path +:+ ".json") in
      tags ← sidecar_tags json_path;
      Ok (Some (make_item path rel caption tags))
  end.

(** [for idx, path in enumerate(root.rglob("*"), start=1)] *)
Fixpoint scan_loop (paths : list Path) (idx : nat) (items : list Item) (st : St)
  : St * result (list Item) :=
  match paths with
  | [] => (st, Ok items)
  | path :: rest =>
      match scan_path path with
      | Raise e => (st, Raise e)
      | Ok None => scan_loop rest (S idx) items st
      | Ok (Some it) => scan_loop rest (S idx) (items ++ [it]) (report idx st)
      end
  end.

(** [items.sort(...); return items] after a loop. *)
Definition sorted_result (r : St * result (list Item)) : St * result (list Item) :=
  (r.1, sort_items <$> r.2).

(** [with index_path.open("r", encoding="utf-8") as handle: for ... in
    handle]: the loop runs over the lines the file yields; when the
    decoder then meets bytes that are not UTF-8, its exception leaves the
    loop. *)
Definition manifest_items (index_path : Path) (st : St) : St * result (list Item) :=
  match read_bytes fs index_path with
  | Raise e => (st, Raise e)
  | Ok data =>
      let '(lines, failure) := text_lines data in
      match manifest_loop lines 1 [] st, failure with
      | (st, Ok items), Some e => (st, Raise e)
      | r, _ => r
      end
  end.

(** The scan reads only, so the generator [root.rglob("*")] yields what
    [rglob] lists. *)
Definition scan_items (st : St) : St * result (list Item) :=
  scan_loop (rglob fs root) 1 [] st.

Definition load_from_manifest (index_path : Path) (st : St) : St * result (list Item) :=
  sorted_result (manifest_items index_path st).

Definition load_from_scan (st : St) : St * result (list Item) :=
  sorted_result (scan_items st).

(** [load_items(root, index_path, progress)] *)
Definition load_items (index_path : option Path) (st : St) : St * result (list Item) :=
  match index_path with
  | Some p =>
      match exists_ fs p with
      | Raise e => (st, Raise e)
      | Ok true => load_from_manifest p st
      | Ok false => load_from_scan st
      end
  | None => load_from_scan st
  end.

(** The items in the order the loop of [load_items] appended them, before
    the sort. *)
Definition items_appended (index_path : option Path) (st : St) : result (list Item) :=
  match index_path with
  | Some p =>
      match exists_ fs p with
      | Raise e => Raise e
      | Ok true => (manifest_items p st).2
      | Ok false => (scan_items st).2
      end
  | None => (scan_items st).2
  end.

End load_items.

(** The manifest is in use when a path was given and exists. *)
Definition manifest_mode (fs : filesystem) (index_path : option Path) : bool :=
  match index_path with
  | Some p => match exists_ fs p with
              | Ok true => true
              | _ => false
              end
  | None => false
  end.

(** ** The derivative cache *)

(** The imaging operations performed, in program order. *)
Inductive event :=
| EvOpen (source : Path)
| EvSave (target : Path).

(** What changes while the server runs: the file system and the record of
    imaging operations. *)
Record world := mkWorld { w_fs : filesystem; w_log : list event }.

(** Computations that change the world and may raise; the changes made
    before an exception stay. *)
Definition M (A : Type) : Type := world → world * result A.

#[global] Instance M_ret : MRet M := λ A a w, (w, Ok a).
#[global] Instance M_bind : MBind M := λ A B k m w,
  match m w with
  | (w', Ok a) => k a w'
  | (w', Raise e) => (w', Raise e)
  end.

Definition lift {A} (r : result A) : M A := λ w, (w, r).

(** The file system as it is now. *)
Definition the_fs : M filesystem := λ w, (w, Ok (w_fs w)).

(** What the encoder behind [image.save(target, ...)] did: it produced the
    bytes of the image, or it raised, either before the target was opened
    ([None]) or after it had written some bytes to it. *)
Inductive save_outcome :=
| Saved (data : string)
| SaveFailed (written : option string) (e : exn).

(** The Pillow operations [build_resized] calls, and the flag set by the
    guarded import. *)
Class PIL := {
  PIL_AVAILABLE : bool;
  image : Type;
  resample_filter : Type;
  (** [Image.open] on the bytes of a file *)
  Image_open_bytes : string → result image;
  ImageOps_exif_transpose : image → result image;
  (** [Image.Resampling.LANCZOS] and the older [Image.LANCZOS] *)
  Image_Resampling_LANCZOS : result resample_filter;
  Image_LANCZOS : result resample_filter;
  image_mode : image → string;
  image_size : image → nat * nat;
  Image_new : string → nat * nat → nat * nat * nat → result image;
  (** [image.split()[-1]] *)
  image_split_last : image → result image;
  (** [background.paste(image, mask=mask)] gives the changed background *)
  image_paste : image → image → image → result image;
  image_convert : image → string → result image;
  (** [image.thumbnail(size, resample=resample)] gives the changed image *)
  image_thumbnail : image → nat * nat → resample_filter → result image;
  (** the encoder of [image.save(target, format, quality=quality,
      optimize=optimize)] *)
  image_save : image → string → nat → bool → save_outcome;
}.

(** Puts a regular file at a location: in place when the location is
    listed, as a new last entry otherwise. *)
Fixpoint put_file (q : list string) (data : string) (es : list (list string * node))
  : list (list string * node) :=
  match es with
  | [] => [(q, File data)]
  | (k, n) :: es' => if decide (k = q) then (k, File data) :: es' else (k, n) :: put_file q data es'
  end.

Definition with_entries (fs : filesystem) (es : list (list string * node)) : filesystem :=
  {| fs_resolve := fs_resolve fs; fs_entries := es; fs_fault := fs_fault fs |}.

Definition fs_write (fs : filesystem) (p : Path) (data : string) : filesystem :=
  with_entries fs (put_file (fs_resolve fs p) data (fs_entries fs)).

(** [p] cut after each of its components, [p] itself last. *)
Definition upto (p : Path) : list Path :=
  (λ k, mkPath (is_absolute p) (take k (parts p))) <$> seq 1 (length (parts p)).

(** [mkdir(parents=True, exist_ok=True)] makes the directories that are
    missing along the path as it is written, from the top; a system error
    on the way, or something there that is not a directory, stops it. *)
Fixpoint mkdirs (todo : list Path) (fs : filesystem) : filesystem * result () :=
  match todo with
  | [] => (fs, Ok ())
  | p :: todo' =>
      match fs_fault fs p with
      | Some e => (fs, Raise e)
      | None =>
          match fs_resolve fs p with
          | [] => mkdirs todo' fs
          | q =>
              match assoc q (fs_entries fs) with
              | None => mkdirs todo' (with_entries fs (fs_entries fs ++ [(q, Dir)]))
              | Some Dir => mkdirs todo' fs
              | Some _ =>
                  (fs, Raise (match todo' with
                              | [] => FileExistsError
                              | _ => NotADirectoryError
                              end))
              end
          end
      end
  end.

(** Opening [p] for writing: the location where the bytes will go, when
    nothing stands in the way. *)
Definition writable (fs : filesystem) (p : Path) : result (list string) :=
  match fs_fault fs p with
  | Some e => Raise e
  | None =>
      if negb (reachable fs p) then Raise FileNotFoundError else
      match fs_resolve fs p with
      | [] => Raise IsADirectoryError
      | q =>
          match assoc q (fs_entries fs) with
          | Some Dir => Raise IsADirectoryError
          | Some Symlink => Raise OSError
          | _ => Ok q
          end
      end
  end.

Section derivative_cache.
Context `{PIL}.

(** [Image.open(source_path)] *)
Definition Image_open (source_path : Path) : M image := λ w,
  let w := {| w_fs := w_fs w; w_log := w_log w ++ [EvOpen source_path] |} in
  (w, data ← read_bytes (w_fs w) source_path; Image_open_bytes data).

(** [p.mkdir(parents=True, exist_ok=True)] *)
Definition mkdir_parents (p : Path) : M () := λ w,
  let '(fs, r) := mkdirs (upto p) (w_fs w) in
  ({| w_fs := fs; w_log := w_log w |}, r).

(** [image.save(target_path, "JPEG", quality=quality, optimize=True)]:
    Pillow opens the target path itself for writing and runs the encoder
    on it; when the encoder raises, Pillow removes the file if this call
    created it, and leaves what was written in a file that was there
    before. *)
Definition save_jpeg (img : image) (target_path : Path) (quality : nat) : M () := λ w,
  let fs := w_fs w in
  let log := w_log w ++ [EvSave target_path] in
  match image_save img "JPEG" quality true with
  | SaveFailed None e => ({| w_fs := fs; w_log := log |}, Raise e)
  | outcome =>
      match writable fs target_path with
      | Raise e => ({| w_fs := fs; w_log := log |}, Raise e)
      | Ok q =>
          match outcome with
          | Saved data =>
              ({| w_fs := with_entries fs (put_file q data (fs_entries fs)); w_log := log |},
               Ok ())
          | SaveFailed written e =>
              match assoc q (fs_entries fs), written with
              | Some _, Some partial =>
                  ({| w_fs := with_entries fs (put_file q partial (fs_entries fs));
                      w_log := log |}, Raise e)
              | _, _ => ({| w_fs := fs; w_log := log |}, Raise e)
              end
          end
      end
  end.

(** The first part of the [try] block of [build_resized]: the image to
    save, from opening the source to [image.thumbnail]. *)
Definition resized (source_path : Path) (max_size : nat) : M image :=
  img ← Image_open source_path;
  img ← lift (ImageOps_exif_transpose img);
  resample ← lift (match Image_Resampling_LANCZOS with
                   | Raise AttributeError => Image_LANCZOS
                   | r => r
                   end);
  img ← (if bool_decide (image_mode img ∈ ["RGBA"; "LA"]) then
           background ← lift (Image_new "RGB" (image_size img) (16, 16, 16));
           mask ← lift (image_split_last img);
           lift (image_paste background img mask)
         else if bool_decide (image_mode img ≠ "RGB") then
           lift (image_convert img "RGB")
         else mret img);
  lift (image_thumbnail img (max_size, max_size) resample).

(** The body of the [try] block of [build_resized]. *)
Definition resize_and_save (source_path target_path : Path) (max_size quality : nat) : M () :=
  img ← resized source_path max_size;
  mkdir_parents (parent target_path);;
  save_jpeg img target_path quality.

(** [build_resized(source_path, target_path, max_size, quality)]: the
    existence check comes before the [try] block. *)
Definition build_resized (source_path target_path : Path) (max_size quality : nat) : M bool :=
  λ w,
  match exists_ (w_fs w) target_path with
  | Raise e => (w, Raise e)
  | Ok true => (w, Ok false)
  | Ok false =>
      if negb PIL_AVAILABLE then (w, Ok false) else
      match resize_and_save source_path target_path max_size quality w with
      | (w', Ok _) => (w', Ok true)
      | (w', Raise _) => (w', Ok false)
      end
  end.

End derivative_cache.

(** The sizes and qualities [main] stores in the module globals. *)
Record Config := mkConfig {
  THUMB_SIZE : nat;
  THUMB_QUALITY : nat;
  DISPLAY_SIZE : nat;
  DISPLAY_QUALITY : nat;
}.

Definition default_config : Config :=
  {| THUMB_SIZE := 360; THUMB_QUALITY := 82; DISPLAY_SIZE := 1600; DISPLAY_QUALITY := 88 |}.

(** ** The item store and the background build *)

(** [type("ItemStore", (), {"items": [], "ready": False, "scanned": 0})()] *)
Record ItemStore := mkStore {
  items : list Item;
  ready : bool;
  scanned : nat;
}.

Definition new_store : ItemStore := {| items := []; ready := false; scanned := 0 |}.

(** The store with the states it went through, oldest first: the request
    handlers run while the build thread writes, so each of these states
    can be observed. *)
Record timeline := mkTimeline { past : list ItemStore; now : ItemStore }.

Definition states (tl : timeline) : list ItemStore := past tl ++ [now tl].

(** One assignment to an attribute of the store. *)
Definition assign (f : ItemStore → ItemStore) (tl : timeline) : timeline :=
  {| past := past tl ++ [now tl]; now := f (now tl) |}.

(** [def progress(scanned): store.scanned = scanned] *)
Definition progress (n : nat) : timeline → timeline :=
  assign (λ store, {| items := items store; ready := ready store; scanned := n |}).

Definition set_items (l : list Item) : timeline → timeline :=
  assign (λ store, {| items := l; ready := ready store; scanned := scanned store |}).

Definition set_ready (b : bool) : timeline → timeline :=
  assign (λ store, {| items := items store; ready := b; scanned := scanned store |}).

(** What the generator [root.rglob("*")] does while the file system
    changes under it: asked for the next path, it looks at the file system
    as it is then, and either ends or yields a path and goes on.  An
    enumeration ends on every course the file system can take. *)
Inductive walk :=
| Stop
| Next (path : Path) (rest : filesystem → walk).

(** The generator of [pathlib]; in which order it lists the directories,
    and when, is not the same in every version of the library. *)
Class Glob := {
  rglob_walk : Path → filesystem → walk;
}.

Section build_items.
Context `{Runtime} `{PIL} `{Glob}.
Variable cfg : Config.

(** The loop of [prebuild_cache] with the counters [total] and [built];
    [todo] is the generator at the point it has reached. *)
Fixpoint prebuild_loop (root : Path) (todo : walk) (total built : nat) : M (nat * nat) :=
  match todo with
  | Stop => mret (M := M) (total, built)
  | Next path rest =>
      if bool_decide (Str.lower (suffix path) ∉ IMAGE_EXTS)
      then fs ← the_fs; prebuild_loop root (rest fs) total built
      else
        fs ← the_fs;
        match safe_relative fs root path with
        | None => prebuild_loop root (rest fs) total built
        | Some rel =>
            let total := S total in
            let thumb_path := make_thumb_path root rel in
            let display_path := make_display_path root rel in
            build_resized path thumb_path (THUMB_SIZE cfg) (THUMB_QUALITY cfg)
            ≫= λ made : bool,
            let built := if made then S built else built in
            build_resized path display_path (DISPLAY_SIZE cfg) (DISPLAY_QUALITY cfg)
            ≫= λ made : bool,
            let built := if made then S built else built in
            fs ← the_fs;
            prebuild_loop root (rest fs) total built
        end
  end.

(** [prebuild_cache(root)]: the numbers it prints at the end, or nothing
    without Pillow. *)
Definition prebuild_cache (root : Path) : M (option (nat * nat)) :=
  if negb PIL_AVAILABLE then mret None
  else fs ← the_fs;
       counts ← prebuild_loop root (rglob_walk root fs) 0 0;
       mret (Some counts).

(** [build_items()], the target of the background thread; an exception
    ends the thread and leaves the store as it is. *)
Definition build_items (prebuild : bool) (root : Path) (index_path : option Path)
    (w : world) (tl : timeline) : world * timeline :=
  match (if prebuild then prebuild_cache root w else (w, Ok None)) with
  | (w, Raise _) => (w, tl)
  | (w, Ok _) =>
      match load_items Colab (w_fs w) root (Some progress) index_path tl with
      | (tl, Ok its) => (w, set_ready true (set_items its tl))
      | (tl, Raise _) => (w, tl)
      end
  end.
End build_items.

(** ** The request handler of the Colab server *)

(** What the handler answers. *)
Inductive response :=
| send_error (code : nat)
| send_200 (content_type : string) (content_length : nat) (cache_seconds : N) (body : string)
| send_json (root : string) (is_ready : bool) (n_scanned : nat) (its : list Item)
| static_page (path : string).

Section handler.
Context `{Runtime} `{PIL}.
Variable cfg : Config.
Variable dataset_root : Path.
Variable store : ItemStore.

(** [send_file(path, cache_seconds, content_type)]: the status line and
    the headers are written before the file is opened, so opening a
    directory raises after them. *)
Definition send_file (path : Path) (cache_seconds : N) (content_type : option string)
  : M response :=
  fs ← the_fs;
  found ← lift (exists_ fs path);
  if negb found then mret (send_error 404) else
  let ctype := match content_type with
               | Some c => Some c
               | None => guess_type (as_posix path)
               end in
  data ← lift (read_bytes fs path);
  mret (send_200 (default "application/octet-stream" ctype)
          (String.length data) cache_seconds data).

(** The [/thumbs/] branch; [rest] is [parsed.path[len("/thumbs/"):]]. *)
Definition get_thumb (rest : string) : M response :=
  let rel_thumb := unquote rest in
  if negb (Str.endswith rel_thumb THUMB_SUFFIX) then mret (send_error 404) else
  let rel_src := Str.drop_last (String.length THUMB_SUFFIX) rel_thumb in
  fs ← the_fs;
  let src_path := resolve fs (dataset_root </> Path_of rel_src) in
  match safe_relative fs dataset_root src_path with
  | None => mret (send_error 403)
  | Some _ =>
      found ← lift (exists_ fs src_path);
      if negb found then mret (send_error 404) else
      let rel_src_path := Path_of rel_src in
      let thumb_path := make_thumb_path dataset_root rel_src_path in
      _ ← build_resized src_path thumb_path (THUMB_SIZE cfg) (THUMB_QUALITY cfg);
      fs ← the_fs;
      cached ← lift (exists_ fs thumb_path);
      if cached : bool
      then send_file thumb_path 86400 (Some "image/jpeg")
      else send_file src_path 3600 None
  end.

(** The [/display/] branch. *)
Definition get_display (rest : string) : M response :=
  let rel_disp := unquote rest in
  if negb (Str.endswith rel_disp DISPLAY_SUFFIX) then mret (send_error 404) else
  let rel_src := Str.drop_last (String.length DISPLAY_SUFFIX) rel_disp in
  fs ← the_fs;
  let src_path := resolve fs (dataset_root </> Path_of rel_src) in
  match safe_relative fs dataset_root src_path with
  | None => mret (send_error 403)
  | Some _ =>
      found ← lift (exists_ fs src_path);
      if negb found then mret (send_error 404) else
      let rel_src_path := Path_of rel_src in
      let display_path := make_display_path dataset_root rel_src_path in
      _ ← build_resized src_path display_path (DISPLAY_SIZE cfg) (DISPLAY_QUALITY cfg);
      fs ← the_fs;
      cached ← lift (exists_ fs display_path);
      if cached : bool
      then send_file display_path 3600 (Some "image/jpeg")
      else send_file src_path 3600 None
  end.

(** The [/files/] branch. *)
Definition get_file (rest : string) : M response :=
  let rel_path := unquote rest in
  fs ← the_fs;
  let target := resolve fs (dataset_root </> Path_of rel_path) in
  match safe_relative fs dataset_root target with
  | None => mret (send_error 403)
  | Some _ => send_file target 3600 None
  end.

(** [do_GET] on [parsed.path]. *)
Definition do_GET (path : string) : M response :=
  if decide (path = "/api/items") then
    mret (send_json (as_posix dataset_root) (ready store) (scanned store)
            (if ready store then items store else []))
  else match Str.strip_prefix "/thumbs/" path with
  | Some rest => get_thumb rest
  | None =>
  match Str.strip_prefix "/display/" path with
  | Some rest => get_display rest
  | None =>
  match Str.strip_prefix "/files/" path with
  | Some rest => get_file rest
  | None =>
      mret (static_page (if bool_decide (path ∈ [""; "/"]) then "/index.html" else path))
  end end end.

End handler.

(** ** Start-up: [main] *)

(** The sizes and qualities [main] stores in the module globals of the
    Colab server, from the integers of the command line:
    [max(128, int(args.thumb_size))], [min(95, max(40, ...))]. *)
Definition main_config (thumb_size display_size thumb_quality display_quality : Z) : Config :=
  {| THUMB_SIZE := Z.to_nat (Z.max 128 thumb_size);
     THUMB_QUALITY := Z.to_nat (Z.min 95 (Z.max 40 thumb_quality));
     DISPLAY_SIZE := Z.to_nat (Z.max 640 display_size);
     DISPLAY_QUALITY := Z.to_nat (Z.min 95 (Z.max 40 display_quality)) |}.

Definition default_index_name : string := "dataset_index_fixed.jsonl".

(** [p if p.exists() else None] *)
Definition if_exists (fs : filesystem) (p : Path) : result (option Path) :=
  found ← exists_ fs p; Ok (if found : bool then Some p else None).

(** The manifest [main] settles on: [--index] when it is given and
    exists, else the default file in the root, else (Colab server only) the
    default file beside the root. *)
Definition find_index (v : variant) (fs : filesystem) (root : Path) (index : option string)
  : result (option Path) :=
  let index_path :=
    match index with
    | Some s => if decide (s = "") then None else Some (resolve fs (Path_of s))
    | None => None
    end in
  index_path ← match index_path with
                | Some p => if_exists fs p
                | None => Ok None
                end;
  index_path ← match index_path with
                | Some p => Ok (Some p)
                | None => if_exists fs (root </> Path_of default_index_name)
                end;
  match v with
  | Local => Ok index_path
  | Colab =>
      match index_path with
      | Some p => Ok (Some p)
      | None => if_exists fs (parent root </> Path_of default_index_name)
      end
  end.

(** ** The request handler of the local server *)

Inductive local_response :=
| local_error (code : nat)
| local_200 (content_type : string) (content_length : nat) (body : string)
| local_json (root : string) (its : list Item)
| local_static (path : string).

Section local_handler.
Context `{Runtime}.
Variable dataset_root : Path.
(** [self.items = items or []] *)
Variable items : list Item.

(** [do_GET] of [viewer/server.py] on [parsed.path]; it only reads the
    file system. *)
Definition local_do_GET (path : string) (fs : filesystem) : result local_response :=
  if decide (path = "/api/items") then
    Ok (local_json (as_posix dataset_root) items)
  else match Str.strip_prefix "/files/" path with
  | Some rest =>
      let rel_path := unquote rest in
      let target := resolve fs (dataset_root </> Path_of rel_path) in
      match safe_relative fs dataset_root target with
      | None => Ok (local_error 403)
      | Some _ =>
          found ← exists_ fs target;
          if negb found then Ok (local_error 404) else
          let ctype := guess_type (as_posix target) in
          data ← read_bytes fs target;
          Ok (local_200 (default "application/octet-stream" ctype)
                (String.length data) data)
      end
  | None =>
      Ok (local_static (if bool_decide (path ∈ [""; "/"]) then "/index.html" else path))
  end.
End local_handler.

(** What the local server keeps of an answer of the Colab server: all but
    the cache lifetime. *)
Definition without_lifetime (r : response) : option local_response :=
  match r with
  | send_error code => Some (local_error code)
  | send_200 ct len _ body => Some (local_200 ct len body)
  | static_page p => Some (local_static p)
  | send_json _ _ _ _ => None
  end.

(** What a reader of [/api/items] is given as items in a state of the
    store. *)
Definition visible_items (s : ItemStore) : list Item :=
  if ready s then items s else [].

(** Nothing is published in any state of [tl]. *)
Definition unpublished (tl : timeline) : Prop :=
  Forall (λ s, ready s = false ∧ items s = []) (states tl).

(** ** Well-formed paths and texts *)

Fixpoint has_char (c : ascii) (s : string) : bool :=
  match s with
  | EmptyString => false
  | String a s' => bool_decide (a = c) || has_char c s'
  end.

(** A component as [pathlib] keeps them: not empty, not ["."], without a
    slash. *)
Definition component (c : string) : Prop :=
  c ≠ "" ∧ c ≠ "." ∧ has_char "/" c = false.

(** No white-space character starts anywhere in [s]. *)
Fixpoint no_space (s : string) : bool :=
  match s with
  | EmptyString => true
  | String _ s' => bool_decide (Str.space_prefix s = None) && no_space s'
  end.

(** A token of [str.split()]: not empty, without white space. *)
Definition clean_token (t : string) : Prop := t ≠ "" ∧ no_space t = true.

(** A text without a white-space character at either end (the empty text
    is one). *)
Definition trimmed (s : string) : Prop :=
  Str.space_prefix s = None ∧ ∀ a sp, sp ∈ Str.white_space → s ≠ a +:+ sp.

(** A manifest line the loop passes over: blank, or refused by
    [json.loads]. *)
Definition skipped_line `{Runtime} (line : string) : bool :=
  if decide (Str.strip line = "") then true
  else match json_loads (Str.strip line) with
       | Raise JSONDecodeError => true
       | _ => false
       end.

(** The three URLs of an item name the path [rel]; the local server has
    no derivative URLs. *)
Definition urls_of `{Runtime} (v : variant) (rel : Path) (it : Item) : Prop :=
  image_url it = to_file_url rel
  ∧ thumb_url it = match v with Colab => Some (to_thumb_url rel) | Local => None end
  ∧ display_url it = match v with Colab => Some (to_display_url rel) | Local => None end.

(** ** What the claims speak about *)

(** The canonical form of [p] is [root] itself or a descendant of it. *)
Definition inside (fs : filesystem) (root p : Path) : Prop :=
  fs_resolve fs root `prefix_of` fs_resolve fs p.


(** The store of a process that has just started. *)
Definition fresh : timeline := {| past := []; now := new_store |}.



(** [fs1] is [fs] with directories created at locations that held nothing:
    same canonical forms, same system errors, same entries where there were
    entries. *)
Definition dirs_added (fs fs1 : filesystem) : Prop :=
  fs_resolve fs1 = fs_resolve fs
  ∧ fs_fault fs1 = fs_fault fs
  ∧ (∀ q, assoc q (fs_entries fs1) = assoc q (fs_entries fs)
          ∨ (assoc q (fs_entries fs) = None ∧ assoc q (fs_entries fs1) = Some Dir))
  ∧ (∀ e, e ∈ fs_entries fs → e ∈ fs_entries fs1).



(** The source a derivative request asks for: the URL without its suffix,
    below the dataset root, in canonical form. *)
Definition requested_source `{Runtime} (fs : filesystem) (root : Path) (suffix rest : string)
  : Path :=
  resolve fs (root </> Path_of (Str.drop_last (String.length suffix) (unquote rest))).

(** The name under which the handler looks the derivative up. *)
Definition requested_name `{Runtime} (suffix rest : string) : Path :=
  Path_of (Str.drop_last (String.length suffix) (unquote rest)).

(** The two derivative profiles of the Colab server, with the URL prefix,
    the cache suffix, the cache path and the cache lifetime of a hit. *)
Inductive profile := Thumb | Display.

Definition profile_prefix (k : profile) : string :=
  match k with Thumb => "/thumbs/" | Display => "/display/" end.

Definition profile_suffix (k : profile) : string :=
  match k with Thumb => THUMB_SUFFIX | Display => DISPLAY_SUFFIX end.

Definition profile_path (k : profile) : Path → Path → Path :=
  match k with Thumb => make_thumb_path | Display => make_display_path end.




(** The URL an item of the Colab server carries for a profile. *)
Definition profile_url `{Runtime} (k : profile) : Path → string :=
  match k with Thumb => to_thumb_url | Display => to_display_url end.

(** ** Concrete platforms, for running the definitions *)

Module Sample.

(** Canonical form on a file system without symbolic links: [".."]
    removes the component before it. *)
Definition lexical (p : Path) : list string :=
  fold_left (λ acc c, if decide (c = "..") then removelast acc else acc ++ [c]) (parts p) [].

(** Canonical form when [link] is a symbolic link to [dest]: a path
    through the link continues from [dest]. *)
Definition through_link (link dest : list string) (p : Path) : list string :=
  match list_strip_prefix link (lexical p) with
  | Some rest => dest ++ rest
  | None => lexical p
  end.

(** A component of more than 255 bytes makes every system call on the
    path fail. *)
Definition name_too_long (p : Path) : option exn :=
  if existsb (λ c, 255 <? String.length c) (parts p) then Some OSError else None.

Definition plain (es : list (list string * node)) : filesystem :=
  {| fs_resolve := lexical; fs_entries := es; fs_fault := name_too_long |}.

Fixpoint lookup_doc (s : string) (docs : list (string * json)) : result json :=
  match docs with
  | [] => Raise JSONDecodeError
  | (k, j) :: docs' => if decide (k = s) then Ok j else lookup_doc s docs'
  end.

(** Lower case for texts in the Latin-1 range: the letters [A] to [Z],
    and the capital letters U+00C0 to U+00DE, which UTF-8 writes as the
    byte 195 and a byte from 128 to 158 (151 is the multiplication
    sign). *)
Fixpoint latin1_lower (s : string) : string :=
  match s with
  | EmptyString => EmptyString
  | String c s' =>
      if decide (nat_of_ascii c = 195) then
        match s' with
        | String d s'' =>
            let n := nat_of_ascii d in
            String c (String (if (128 <=? n) && (n <=? 158) && negb (n =? 151)
                              then ascii_of_nat (n + 32) else d)
                        (latin1_lower s''))
        | EmptyString => String c EmptyString
        end
      else String (Str.lower_ascii c) (latin1_lower s')
  end.

(** A run-time whose JSON decoder knows the documents of [docs] and
    refuses every other text; all bytes are text, URLs need no escaping. *)
Definition runtime (docs : list (string * json)) : Runtime :=
  {| json_loads := λ s, lookup_doc s docs;
     utf8_decode := Some;
     lines_before_error := λ _, [];
     unicode_lower := latin1_lower;
     quote := id;
     unquote := id;
     guess_type := λ _, None |}.

(** A run-time for which the bytes [bad] are not UTF-8: a file with these
    bytes yields [before] and then fails. *)
Definition runtime_refusing (bad : string) (before : list string)
    (docs : list (string * json)) : Runtime :=
  {| json_loads := λ s, lookup_doc s docs;
     utf8_decode := λ d, if decide (d = bad) then None else Some d;
     lines_before_error := λ _, before;
     unicode_lower := latin1_lower;
     quote := id;
     unquote := id;
     guess_type := λ _, None |}.

(** Pillow is not installed. *)
Definition no_pil : PIL :=
  {| PIL_AVAILABLE := false;
     image := unit;
     resample_filter := unit;
     Image_open_bytes := λ _, Raise UnidentifiedImageError;
     ImageOps_exif_transpose := λ _, Raise OSError;
     Image_Resampling_LANCZOS := Raise AttributeError;
     Image_LANCZOS := Raise AttributeError;
     image_mode := λ _, "";
     image_size := λ _, (0, 0);
     Image_new := λ _ _ _, Raise OSError;
     image_split_last := λ _, Raise OSError;
     image_paste := λ _ _ _, Raise OSError;
     image_convert := λ _ _, Raise OSError;
     image_thumbnail := λ _ _ _, Raise OSError;
     image_save := λ _ _ _ _, SaveFailed None OSError |}.

(** Pillow is installed; every file but one with the bytes [corrupt]
    decodes to an RGB image whose encoding is what [save] says. *)
Definition pil_refusing (corrupt : string) (save : save_outcome) : PIL :=
  {| PIL_AVAILABLE := true;
     image := unit;
     resample_filter := unit;
     Image_open_bytes :=
       λ d, if decide (d = corrupt) then Raise UnidentifiedImageError else Ok ();
     ImageOps_exif_transpose := λ i, Ok i;
     Image_Resampling_LANCZOS := Ok ();
     Image_LANCZOS := Ok ();
     image_mode := λ _, "RGB";
     image_size := λ _, (4, 4);
     Image_new := λ _ _ _, Ok ();
     image_split_last := λ i, Ok i;
     image_paste := λ b _ _, Ok b;
     image_convert := λ i _, Ok i;
     image_thumbnail := λ i _ _, Ok i;
     image_save := λ _ _ _ _, save |}.

Definition pil (save : save_outcome) : PIL := pil_refusing "not an image" save.

(** The paths of [ps] one after the other, whatever happens meanwhile,
    then [k]. *)
Fixpoint yield_all (ps : list Path) (k : filesystem → walk) : filesystem → walk :=
  match ps with
  | [] => k
  | p :: ps' => λ _, Next p (yield_all ps' k)
  end.

(** An enumeration that lists everything when it is first asked. *)
Definition at_once : Glob :=
  {| rglob_walk := λ root fs, yield_all (rglob fs root) (λ _, Stop) fs |}.

(** The entries of the directory [d] below [root], with what they
    hold. *)
Definition children (fs : filesystem) (root : Path) (d : list string)
  : list (string * node) :=
  omap (λ e : list string * node,
          match list_strip_prefix (fs_resolve fs root ++ d) e.1 with
          | Some [c] => Some (c, e.2)
          | _ => None
          end) (fs_entries fs).

(** An enumeration that lists a directory when it reaches it, yields its
    entries, then lists it again for the directories to go into, as
    [pathlib] does in Python 3.11.  [ds] are the directories still to
    visit; at most [n] directories are visited. *)
Fixpoint by_directory (n : nat) (root : Path) (ds : list (list string))
  : filesystem → walk :=
  match n with
  | 0 => λ _, Stop
  | S n =>
      match ds with
      | [] => λ _, Stop
      | d :: ds' => λ fs,
          yield_all
            ((λ c : string * node,
                mkPath (is_absolute root) (parts root ++ d ++ [c.1])) <$> children fs root d)
            (λ fs', by_directory n root
                      (((λ c : string * node, d ++ [c.1])
                          <$> filter (λ c : string * node, c.2 = Dir) (children fs' root d))
                       ++ ds') fs')
            fs
      end
  end.

Definition listing (n : nat) : Glob :=
  {| rglob_walk := λ root, by_directory n root [[]] |}.

Definition data : Path := Path_of "/data".

(** [/data] holds one image. *)
Definition one_image : filesystem :=
  plain [ (["data"], Dir); (["data"; "a.png"], File "PNG") ].


Definition index : Path := Path_of "/data/index.jsonl".

(** A manifest whose only row names the directory [/data/sub]. *)
Definition row_names_directory : json :=
  JObj {[ "image_path" := JStr "sub"; "caption_path" := JStr "none.txt" ]}.

Definition manifest_with_directory : filesystem :=
  plain [ (["data"], Dir); (["data"; "sub"], Dir);
          (["data"; "index.jsonl"], File ("ROW" +:+ String "010" "")) ].

(** A manifest whose row takes its caption from [/secret.txt], and one
    whose row takes it from the directory [/data/sub]. *)
Definition row_caption_outside : json :=
  JObj {[ "image_path" := JStr "a.png"; "caption_path" := JStr "/secret.txt" ]}.

Definition row_caption_directory : json :=
  JObj {[ "image_path" := JStr "a.png"; "caption_path" := JStr "sub" ]}.

Definition manifest_with_captions (row : string) : filesystem :=
  plain [ (["data"], Dir); (["data"; "a.png"], File "PNG"); (["data"; "sub"], Dir);
          (["secret.txt"], File " top secret ");
          (["data"; "index.jsonl"], File row) ].

Definition caption_docs : list (string * json) :=
  [ ("OUTSIDE", row_caption_outside); ("DIRECTORY", row_caption_directory) ].

(** Two images; the side-car of the first holds [text]. *)
Definition with_sidecar (text : string) : filesystem :=
  plain [ (["data"], Dir); (["data"; "a.png"], File "PNG");
          (["data"; "a.png.json"], File text); (["data"; "b.png"], File "PNG") ].

(** Side-cars that are valid JSON with a number where a string is
    expected, and that are not an object at all. *)
Definition sidecar_docs : list (string * json) :=
  [ ("NUMBER", JObj {[ "tag_string_artist" := JNum 5 ]});
    ("LIST", JArr [JStr "cat"]);
    ("GOOD", JObj {[ "tag_string_general" := JStr "cat outdoor" ]}) ].

Definition a_png : Path := Path_of "/data/a.png".

(** The world of a server that has just started on [fs]. *)
Definition start (fs : filesystem) : world := {| w_fs := fs; w_log := [] |}.


(** [/data] holds one image with a caption and a side-car. *)
Definition captioned : filesystem :=
  plain [ (["data"], Dir); (["data"; "a.png"], File "PNG");
          (["data"; "a.png.json"], File "GOOD");
          (["data"; "a.png.caption.txt"], File ("a cat outside" +:+ String "010" "")) ].

(** [/data] holds images whose names differ in case, in two directories. *)
Definition mixed_case : filesystem :=
  plain [ (["data"], Dir); (["data"; "b.png"], File "1"); (["data"; "x"], Dir);
          (["data"; "x"; "A.PNG"], File "2"); (["data"; "a.png"], File "3");
          (["data"; "C.gif"], File "4"); (["data"; "notes.txt"], File "5") ].

(** A manifest row that names an image and nothing else. *)
Definition bare_row : gmap string json := {[ "image_path" := JStr "a.png" ]}.

Definition bare_docs : list (string * json) := [ ("BARE", JObj bare_row) ].

(** The name of an image of 250 bytes: its thumbnail and its display
    rendition would have names of 260 and 262 bytes. *)
Definition long_name : string := Str.utf8 (replicate 246 97) +:+ ".png".

(** [/data] holds [a.png] and an image with the long name. *)
Definition with_long_name : filesystem :=
  plain [ (["data"], Dir); (["data"; "a.png"], File "PNG");
          (["data"; long_name], File "PNG") ].

(** The capital and the small letter e with an acute accent, in UTF-8. *)
Definition E_acute : string := Str.utf8 [195; 137].
Definition e_acute : string := Str.utf8 [195; 169].

(** [/data] holds two images whose names begin with these letters. *)
Definition accented : filesystem :=
  plain [ (["data"], Dir); (["data"; E_acute +:+ "b.png"], File "1");
          (["data"; e_acute +:+ "a.png"], File "2") ].

(** The ideographic space U+3000 and the no-break space U+00A0, in
    UTF-8. *)
Definition ideographic_space : string := Str.utf8 [227; 128; 128].
Definition no_break_space : string := Str.utf8 [194; 160].

End Sample.
(** * Properties *)

(** ** The definitions at work *)

Example split_tags_sample :
  split_tags (JStr "a b  c") = Ok ["a"; "b"; "c"]
  ∧ split_tags (JStr ("a" +:+ Sample.ideographic_space +:+ "b" +:+ Sample.no_break_space))
    = Ok ["a"; "b"]
  ∧ split_tags JNull = Ok []
  ∧ split_tags (JNum 0) = Ok []
  ∧ split_tags (JNum 5) = Raise AttributeError.
Proof. vm_compute. done. Qed.

Example path_samples :
  Path_of "a//b/./c.JPG" = mkPath false ["a"; "b"; "c.JPG"]
  ∧ suffix (Path_of "/data/a.tar.gz") = ".gz"
  ∧ suffix (Path_of "/data/.hidden") = ""
  ∧ suffix (Path_of "/data/trailing.") = ""
  ∧ as_posix (Path_of "") = "."
  ∧ Path_of "/data" </> Path_of "/etc/passwd" = Path_of "/etc/passwd"
  ∧ make_thumb_path (Path_of "/data") (Path_of "sub/a.png")
    = Path_of "/data/.thumbs/sub/a.png.thumb.jpg".
Proof. vm_compute. done. Qed.

(** Lines end at a line feed, at a carriage return, or at the two
    together; white space of any script is stripped. *)
Example text_samples :
  Str.lines (Str.universal_newlines
               ("one" +:+ String "013" "two" +:+ String "013" (String "010" "three")))
  = ["one" +:+ String "010" ""; "two" +:+ String "010" ""; "three"]
  ∧ Str.strip (String "009" " a b " +:+ String "010" "") = "a b"
  ∧ Str.strip (Sample.ideographic_space +:+ "a b" +:+ Sample.no_break_space) = "a b".
Proof. vm_compute. done. Qed.

(** What a path denotes is decided along the path as it is written: with
    no directory [x], [x/../a.png] denotes nothing although its canonical
    form does; and a name of more than 255 bytes makes [exists()] raise. *)
Example stat_samples :
  let fs := Sample.with_long_name in
  fs_resolve fs (Path_of "/data/x/../a.png") = ["data"; "a.png"]
  ∧ exists_ fs (Path_of "/data/a.png") = Ok true
  ∧ exists_ fs (Path_of "/data/x/../a.png") = Ok false
  ∧ exists_ fs (Path_of "/data/a.png/../a.png") = Ok false
  ∧ exists_ fs (Sample.data </> Path_of Sample.long_name) = Ok true
  ∧ exists_ fs (make_thumb_path Sample.data (Path_of Sample.long_name)) = Raise OSError.
Proof. vm_compute. done. Qed.

(** The image of the specification's end-to-end example. *)
Example scan_sample :
  (load_items (H := Sample.runtime Sample.sidecar_docs) Local Sample.captioned Sample.data
     None None ()).2
  = Ok [ {| name := "a.png"; image_url := "/files/a.png"; thumb_url := None;
            display_url := None; caption := "a cat outside";
            tags := {| artist := JArr []; copyright := JArr []; character := JArr [];
                       general := JArr [JStr "cat"; JStr "outdoor"] |} |} ].
Proof. vm_compute. done. Qed.

(** Names are ordered without regard to case, also beyond ASCII; equal
    keys keep the order of enumeration. *)
Example sort_sample :
  let names fs :=
    (λ r, fmap (M := list) name <$> r)
      (load_items (H := Sample.runtime []) Local fs Sample.data None None ()).2 in
  names Sample.mixed_case = Ok ["A.PNG"; "a.png"; "b.png"; "C.gif"]
  ∧ names Sample.accented
    = Ok [Sample.e_acute +:+ "a.png"; Sample.E_acute +:+ "b.png"].
Proof. vm_compute. done. Qed.

(** A manifest that stops being UTF-8 after its first row: the row is
    read, then the build ends with the decoder's exception. *)
Example manifest_decoded_while_read :
  let H := Sample.runtime_refusing "BAD" ["OUTSIDE"] Sample.caption_docs in
  let fs := Sample.manifest_with_captions "BAD" in
  (manifest_loop Local fs Sample.data None ["OUTSIDE"] 1 [] ()).2
  = Ok [ {| name := "a.png"; image_url := "/files/a.png"; thumb_url := None;
            display_url := None; caption := "top secret"; tags := empty_tags |} ]
  ∧ (load_items Local fs Sample.data None (Some Sample.index) ()).2
    = Raise UnicodeDecodeError.
Proof. vm_compute. done. Qed.

(** A prebuild pass followed by the scan: the derivatives are indexed
    with the image. *)
Example prebuild_then_scan_sample :
  let out := build_items (H := Sample.runtime []) (H0 := Sample.pil (Saved "JPEG"))
               (H1 := Sample.at_once) default_config true Sample.data None
               (Sample.start Sample.one_image) fresh in
  name <$> items (now out.2) = ["a.png"; "a.png.display.jpg"; "a.png.thumb.jpg"]
  ∧ ready (now out.2) = true
  ∧ scanned (now out.2) = 0.
Proof. vm_compute. done. Qed.

(** ** C1: the path sandbox *)

Lemma list_strip_prefix_Some (r l rel : list string) :
  list_strip_prefix r l = Some rel ↔ l = r ++ rel.
Proof.
  revert l. induction r as [|a r IH]; intros [|b l]; simpl.
  - split; [by intros [= <-] | by intros <-].
  - split; [by intros [= <-] | by intros <-].
  - split; [done | by intros [=]].
  - destruct (decide (a = b)) as [<-|Hne].
    + rewrite IH. split; [by intros -> | by intros [= ->]].
    + split; [done | intros [= ? _]; congruence].
Qed.

Lemma list_strip_prefix_is_Some (r l : list string) :
  is_Some (list_strip_prefix r l) ↔ r `prefix_of` l.
Proof.
  split.
  - intros [rel Hrel]. exists rel. by apply list_strip_prefix_Some.
  - intros [rel ->]. exists rel. by apply list_strip_prefix_Some.
Qed.

Lemma relative_to_raises_ValueError (target root : Path) (e : exn) :
  relative_to target root = Raise e → e = ValueError.
Proof.
  unfold relative_to. destruct (bool_decide _); [|by intros [= <-]].
  destruct (list_strip_prefix _ _); [done | by intros [= <-]].
Qed.

Lemma safe_relative_Some (fs : filesystem) (root target rel : Path) :
  safe_relative fs root target = Some rel ↔
  is_absolute rel = false ∧ fs_resolve fs target = fs_resolve fs root ++ parts rel.
Proof.
  unfold safe_relative, relative_to, resolve; simpl.
  destruct (list_strip_prefix _ _) as [r|] eqn:E; simpl.
  - apply list_strip_prefix_Some in E. split.
    + intros [= <-]. done.
    + intros [Habs Heq]. destruct rel as [a ps]; simpl in *; subst a.
      rewrite E in Heq. apply app_inv_head in Heq. by subst.
  - split; [done|]. intros [_ Heq].
    apply list_strip_prefix_Some in Heq. congruence.
Qed.

(** C1.  For every root and every candidate, [safe_relative] accepts the
    candidate (returns a path, which is then the candidate's canonical form
    relative to the canonical root) exactly when the canonical form of the
    candidate is the canonical root itself or lies below it, and it returns
    the rejection value [None] exactly when it lies outside. *)
Theorem safe_relative_accepts_iff_inside (fs : filesystem) (root target : Path) :
  (is_Some (safe_relative fs root target) ↔ inside fs root target)
  ∧ (safe_relative fs root target = None ↔ ¬ inside fs root target)
  ∧ (∀ rel, safe_relative fs root target = Some rel ↔
            is_absolute rel = false
            ∧ fs_resolve fs target = fs_resolve fs root ++ parts rel).
Proof.
  assert (Hiff : is_Some (safe_relative fs root target) ↔ inside fs root target).
  { split.
    - intros [rel Hrel]. apply safe_relative_Some in Hrel as [_ Hrel].
      by exists (parts rel).
    - intros [k Hk]. exists (mkPath false k). by apply safe_relative_Some. }
  split; [done|]. split.
  - rewrite <- Hiff, eq_None_not_Some. done.
  - intros rel. apply safe_relative_Some.
Qed.

(** The sandbox on a file system without links, and through a link that
    leaves the root. *)
Example safe_relative_samples :
  let fs := Sample.plain [] in
  safe_relative fs Sample.data (Path_of "/data/sub/../a.png") = Some (Path_of "a.png")
  ∧ safe_relative fs Sample.data (Path_of "/data") = Some (Path_of "")
  ∧ safe_relative fs Sample.data (Path_of "/data/../etc/passwd") = None
  ∧ safe_relative fs Sample.data (Path_of "/database/a.png") = None
  ∧ safe_relative (mkFs (Sample.through_link ["data"; "out"] ["etc"]) [] (λ _, None))
      Sample.data (Path_of "/data/out/passwd") = None.
Proof. vm_compute. done. Qed.

(** ** C8: the order of the index *)

Lemma string_compare_le_trans (s1 s2 s3 : string) :
  String.compare s1 s2 ≠ Gt → String.compare s2 s3 ≠ Gt → String.compare s1 s3 ≠ Gt.
Proof.
  revert s2 s3. induction s1 as [|c1 s1 IH]; intros [|c2 s2] [|c3 s3]; simpl; try done.
  unfold Ascii.compare.
  destruct (N.compare_spec (N_of_ascii c1) (N_of_ascii c2)) as [E12|L12|G12]; [| |done].
  - destruct (N.compare_spec (N_of_ascii c2) (N_of_ascii c3)) as [E23|L23|G23]; [| |done].
    + rewrite E12, E23, N.compare_refl. apply IH.
    + intros _ _. rewrite E12. apply N.compare_lt_iff in L23. by rewrite L23.
  - destruct (N.compare_spec (N_of_ascii c2) (N_of_ascii c3)) as [E23|L23|G23]; [| |done].
    + intros _ _. rewrite <- E23. apply N.compare_lt_iff in L12. by rewrite L12.
    + intros _ _. assert (N_of_ascii c1 < N_of_ascii c3)%N as L13 by lia.
      apply N.compare_lt_iff in L13. by rewrite L13.
Qed.

Section order.
Context `{Runtime}.

Lemma key_le_trans (a b c : Item) : key_le a b → key_le b c → key_le a c.
Proof.
  unfold key_le, String.leb. intros Hab Hbc.
  pose proof (string_compare_le_trans (sort_key a) (sort_key b) (sort_key c)) as Ht.
  destruct (String.compare (sort_key a) (sort_key b)); [| |done];
    (destruct (String.compare (sort_key b) (sort_key c)); [| |done]);
    (destruct (String.compare (sort_key a) (sort_key c)); [done|done|]);
    exfalso; by apply Ht.
Qed.

Lemma key_le_total (a b : Item) : key_le a b ∨ key_le b a.
Proof. apply String.leb_total. Qed.


Lemma insert_item_Forall (P : Item → Prop) (x : Item) (l : list Item) :
  P x → Forall P l → Forall P (insert_item x l).
Proof.
  intros Hx Hl. induction Hl as [|y l Hy Hl IH]; simpl.
  - by constructor.
  - destruct (String.leb _ _); repeat constructor; done.
Qed.

Lemma insert_item_sorted (x : Item) (l : list Item) :
  StronglySorted key_le l → StronglySorted key_le (insert_item x l).
Proof.
  induction 1 as [|y l Hs IH Hy]; simpl.
  - repeat constructor.
  - destruct (String.leb (sort_key x) (sort_key y)) eqn:E.
    + constructor; [by constructor|]. constructor; [done|].
      eapply Forall_impl; [exact Hy|]. intros z Hz. by eapply key_le_trans.
    + constructor; [done|]. apply insert_item_Forall; [|done].
      destruct (key_le_total x y) as [Hxy|Hyx]; [|done].
      unfold key_le in Hxy. congruence.
Qed.

Lemma sort_items_sorted (l : list Item) : StronglySorted key_le (sort_items l).
Proof. induction l; simpl; [constructor | by apply insert_item_sorted]. Qed.

Lemma insert_item_perm (x : Item) (l : list Item) : insert_item x l ≡ₚ x :: l.
Proof.
  induction l as [|y l IH]; simpl; [done|].
  destruct (String.leb _ _); [done|]. rewrite IH. apply Permutation_swap.
Qed.

Lemma sort_items_perm (l : list Item) : sort_items l ≡ₚ l.
Proof.
  induction l as [|x l IH]; simpl; [done|]. by rewrite insert_item_perm, IH.
Qed.






End order.

Section loops_ignore_progress.
Context `{Runtime}.
Variables (v : variant) (fs : filesystem) (root : Path).



(** What [manifest_items] returns, from what its loop returns. *)
Lemma manifest_items_result {St} (pr : option (nat → St → St)) p st :
  (manifest_items v fs root pr p st).2
  = match read_bytes fs p with
    | Raise e => Raise e
    | Ok data =>
        match (manifest_loop v fs root pr (text_lines data).1 1 [] st).2, (text_lines data).2 with
        | Ok _, Some e => Raise e
        | r, _ => r
        end
    end.
Proof.
  unfold manifest_items. destruct (read_bytes fs p) as [data|e]; [|done].
  destruct (text_lines data) as [ls failure]. simpl.
  destruct (manifest_loop v fs root pr ls 1 [] st) as [st' [l|e]]; simpl; by destruct failure.
Qed.

Lemma manifest_items_state {St} (pr : option (nat → St → St)) p st :
  (manifest_items v fs root pr p st).1
  = match read_bytes fs p with
    | Raise e => st
    | Ok data => (manifest_loop v fs root pr (text_lines data).1 1 [] st).1
    end.
Proof.
  unfold manifest_items. destruct (read_bytes fs p) as [data|e]; [|done].
  destruct (text_lines data) as [ls failure]. simpl.
  destruct (manifest_loop v fs root pr ls 1 [] st) as [st' [l|e]]; simpl; by destruct failure.
Qed.



(** [load_items] sorts what its loop appended. *)
Lemma load_items_sorts {St} (pr : option (nat → St → St)) index_path st :
  (load_items v fs root pr index_path st).2
  = sort_items <$> items_appended v fs root pr index_path st.
Proof.
  unfold load_items, items_appended, load_from_manifest, load_from_scan, sorted_result.
  destruct index_path as [p|]; [destruct (exists_ fs p) as [[]|]|]; done.
Qed.


Lemma load_items_sorted {St} (pr : option (nat → St → St)) index_path st its :
  (load_items v fs root pr index_path st).2 = Ok its → StronglySorted key_le its.
Proof.
  rewrite load_items_sorts. destruct (items_appended _ _ _ _ _ _) as [l|e]; simpl; [|done].
  intros [= <-]. apply sort_items_sorted.
Qed.
End loops_ignore_progress.


(** ** C2: the scanned counter *)







Section counting_loops.
Context `{Runtime}.
Variables (fs : filesystem) (root : Path).



End counting_loops.




(** ** C4: what a manifest row may refer to *)

Lemma elem_of_insert_item `{Runtime} (x y : Item) (l : list Item) :
  y ∈ insert_item x l ↔ y = x ∨ y ∈ l.
Proof. by rewrite insert_item_perm, elem_of_cons. Qed.

Lemma elem_of_sort_items `{Runtime} (y : Item) (l : list Item) : y ∈ sort_items l ↔ y ∈ l.
Proof. by rewrite sort_items_perm. Qed.

(** What exists is a regular file or a directory. *)
Lemma exists_stat (fs : filesystem) (p : Path) :
  exists_ fs p = Ok true →
  fs_fault fs p = None
  ∧ (fs_stat fs p = Some Dir ∨ ∃ d, fs_stat fs p = Some (File d)).
Proof.
  unfold exists_, stat. destruct (fs_fault fs p); [done|]. simpl.
  intros [= Hn]. apply bool_decide_eq_true in Hn as [n Hn]. split; [done|].
  unfold fs_stat, node_at in *. destruct (reachable fs p); [|done].
  destruct (fs_resolve fs p); [by left|].
  destruct (assoc _ _) as [[d| |]|]; simplify_eq; [right; by eexists|by left].
Qed.


Section manifest_rows.
Context `{Runtime}.
Variables (v : variant) (fs : filesystem) (root : Path).

Lemma manifest_row_emits line it :
  manifest_row v fs root line = Ok (Some it) →
  ∃ row p rel,
    json_loads (Str.strip line) = Ok row
    ∧ json_get row "image_path" (JStr "") = Ok (JStr p)
    ∧ safe_relative fs root (anchored root (Path_of p)) = Some rel
    ∧ exists_ fs (anchored root (Path_of p)) = Ok true
    ∧ name it = name_of (anchored root (Path_of p))
    ∧ image_url it = to_file_url rel.
Proof.
  unfold manifest_row. destruct (decide _); [done|].
  destruct (json_loads (Str.strip line)) as [row|e] eqn:Erow; [|by destruct e].
  destruct (json_get row "image_path" (JStr "")) as [j|e] eqn:Ej; simpl; [|done].
  destruct j as [| | |p| |]; simpl; try done.
  destruct (safe_relative _ _ _) as [rel|] eqn:Erel; [|done].
  destruct (exists_ fs (anchored root (Path_of p))) as [[]|e] eqn:Eex; simpl; [|done|done].
  intros Hit. exists row, p, rel. repeat (split; [done|]).
  repeat (match type of Hit with
          | context [mbind _ ?r] => destruct r; simpl in Hit; [|done]
          end).
  injection Hit as <-. done.
Qed.

Lemma manifest_row_drops line row p :
  Str.strip line ≠ "" →
  json_loads (Str.strip line) = Ok row →
  json_get row "image_path" (JStr "") = Ok (JStr p) →
  safe_relative fs root (anchored root (Path_of p)) = None
  ∨ exists_ fs (anchored root (Path_of p)) = Ok false →
  manifest_row v fs root line = Ok None.
Proof.
  intros Hne Hrow Hp Hbad. unfold manifest_row.
  rewrite decide_False, Hrow, Hp by done. simpl.
  destruct (safe_relative _ _ _) as [rel|]; [|done].
  destruct Hbad as [?| ->]; done.
Qed.

Lemma manifest_loop_emits {St} (pr : option (nat → St → St)) ls idx acc st its it :
  (manifest_loop v fs root pr ls idx acc st).2 = Ok its →
  it ∈ its → it ∈ acc ∨ ∃ line, line ∈ ls ∧ manifest_row v fs root line = Ok (Some it).
Proof.
  revert idx acc st. induction ls as [|l ls IH]; intros idx acc st; simpl.
  - intros [= <-]. by left.
  - destruct (manifest_row v fs root l) as [[x|]|e] eqn:E; [| |done].
    + intros Hl Hit. destruct (IH _ _ _ Hl Hit) as [Hacc|(line & Hin & Hrow)].
      * apply elem_of_app in Hacc as [Hacc|Hx]; [by left|].
        apply list_elem_of_singleton in Hx as ->. right. exists l. split; [left|done].
      * right. exists line. split; [by right|done].
    + intros Hl Hit. destruct (IH _ _ _ Hl Hit) as [Hacc|(line & Hin & Hrow)]; [by left|].
      right. exists line. split; [by right|done].
Qed.

(** The items of a manifest all come from rows of the loop. *)
Lemma manifest_items_emits {St} (pr : option (nat → St → St)) p st its it :
  (manifest_items v fs root pr p st).2 = Ok its → it ∈ its →
  ∃ line, manifest_row v fs root line = Ok (Some it).
Proof.
  rewrite manifest_items_result. destruct (read_bytes fs p) as [data|e]; [|done].
  destruct (manifest_loop _ _ _ _ _ _ _ _).2 as [l|e] eqn:El.
  2:{ by destruct (text_lines data).2. }
  destruct (text_lines data).2; [done|]. intros [= <-] Hit.
  destruct (manifest_loop_emits _ _ _ _ _ _ _ El Hit) as [Hnil|(line & _ & Hrow)].
  - by apply elem_of_nil in Hnil.
  - by exists line.
Qed.
End manifest_rows.

(** C4 (as amended).  In manifest mode, every item of the index comes from
    a row whose image path exists (as a regular file or as a directory) and
    has its canonical form inside the dataset root; the item's URL is built
    from that canonical form relative to the root.  A row whose path does
    not exist or leaves the root therefore never reaches the index. *)
Theorem manifest_items_exist_inside_root `{Runtime} (v : variant) (fs : filesystem)
    (root : Path) {St : Type} (pr : option (nat → St → St)) (index_path : option Path)
    (st st' : St) (its : list Item) (it : Item) :
  manifest_mode fs index_path = true →
  load_items v fs root pr index_path st = (st', Ok its) →
  it ∈ its →
  ∃ img_path rel,
    name it = name_of img_path
    ∧ image_url it = to_file_url rel
    ∧ is_absolute rel = false
    ∧ fs_resolve fs img_path = fs_resolve fs root ++ parts rel
    ∧ inside fs root img_path
    ∧ (fs_stat fs img_path = Some Dir ∨ ∃ d, fs_stat fs img_path = Some (File d)).
Proof.
  unfold manifest_mode, load_items, load_from_manifest, sorted_result.
  destruct index_path as [p|]; [|done].
  destruct (exists_ fs p) as [[]|e]; [|done|done]. intros _.
  destruct (manifest_items v fs root pr p st) as [st1 [l|e]] eqn:El; simpl; [|done].
  intros [= <- <-] Hit. rewrite elem_of_sort_items in Hit.
  destruct (manifest_items_emits v fs root pr p st l it) as [line Hrow];
    [by rewrite El|done|].
  apply manifest_row_emits in Hrow as (row & q & rel & _ & _ & Hrel & Hex & Hname & Hurl).
  exists (anchored root (Path_of q)), rel.
  apply safe_relative_Some in Hrel as [Habs Hres].
  repeat (split; [done|]). split; [by exists (parts rel)|].
  by apply exists_stat in Hex as [_ Hex].
Qed.

(** C4 at a concrete manifest: its one row names an image below the root. *)
Lemma manifest_items_exist_inside_root_witness :
  let H := Sample.runtime Sample.caption_docs in
  let fs := Sample.manifest_with_captions "OUTSIDE" in
  let it := {| name := "a.png"; image_url := "/files/a.png"; thumb_url := None;
               display_url := None; caption := "top secret"; tags := empty_tags |} in
  manifest_mode fs (Some Sample.index) = true
  ∧ load_items Local fs Sample.data None (Some Sample.index) () = ((), Ok [it])
  ∧ ∃ img_path rel,
      name it = name_of img_path
      ∧ image_url it = to_file_url rel
      ∧ is_absolute rel = false
      ∧ fs_resolve fs img_path = fs_resolve fs Sample.data ++ parts rel
      ∧ inside fs Sample.data img_path
      ∧ (fs_stat fs img_path = Some Dir ∨ ∃ d, fs_stat fs img_path = Some (File d)).
Proof.
  intros H fs it.
  split; [vm_compute; reflexivity|]. split; [vm_compute; reflexivity|].
  apply (manifest_items_exist_inside_root Local fs Sample.data None (Some Sample.index)
           () () [it] it).
  - vm_compute. reflexivity.
  - vm_compute. reflexivity.
  - left.
Defined.

(** C4, at a concrete input: a row that names a directory below the root
    is emitted as an item, so the item does not refer to a regular file. *)
Lemma manifest_row_may_name_a_directory :
  let fs := Sample.manifest_with_directory in
  let H := Sample.runtime [("ROW", Sample.row_names_directory)] in
  (load_items Local fs Sample.data None (Some Sample.index) ()).2
  = Ok [ {| name := "sub"; image_url := "/files/sub"; thumb_url := None;
            display_url := None; caption := ""; tags := empty_tags |} ]
  ∧ fs_stat fs (Sample.data </> Path_of "sub") = Some Dir
  ∧ ¬ (∃ d, fs_stat fs (Sample.data </> Path_of "sub") = Some (File d)).
Proof.
  split; [vm_compute; done|]. split; [vm_compute; done|].
  intros [d Hd]. vm_compute in Hd. discriminate.
Qed.

(** ** C5: the caption of a manifest row *)

(** C5, at the failing inputs.  The row of the first manifest takes its
    caption from [/secret.txt], which the sandbox places outside the root
    [/data]: the file is read all the same and its trimmed text becomes the
    caption.  The row of the second manifest takes its caption from a
    directory: reading it raises, and the whole build ends with that
    exception instead of an empty caption. *)
Theorem caption_path_is_read_without_sandbox :
  let H := Sample.runtime Sample.caption_docs in
  safe_relative (Sample.manifest_with_captions "OUTSIDE") Sample.data (Path_of "/secret.txt")
  = None
  ∧ (load_items Local (Sample.manifest_with_captions "OUTSIDE") Sample.data None
       (Some Sample.index) ()).2
    = Ok [ {| name := "a.png"; image_url := "/files/a.png"; thumb_url := None;
              display_url := None; caption := "top secret"; tags := empty_tags |} ]
  ∧ (load_items Local (Sample.manifest_with_captions "DIRECTORY") Sample.data None
       (Some Sample.index) ()).2
    = Raise IsADirectoryError
  ∧ (build_items (H0 := Sample.no_pil) (H1 := Sample.at_once) default_config false
       Sample.data (Some Sample.index)
       (Sample.start (Sample.manifest_with_captions "DIRECTORY")) fresh).2
    = fresh.
Proof. vm_compute. done. Qed.

(** ** C7: side-cars of scanned images *)

Section sidecars.
Context `{Runtime}.
Variable fs : filesystem.

(** A side-car that is missing, or that [json.loads] refuses, leaves the
    four slots empty. *)
Lemma sidecar_missing_or_refused (json_path : Path) :
  exists_ fs json_path = Ok false
  ∨ (∃ text, exists_ fs json_path = Ok true ∧ read_text fs json_path = Ok text
             ∧ json_loads text = Raise JSONDecodeError) →
  sidecar_tags fs json_path = Ok empty_tags.
Proof.
  unfold sidecar_tags, read_sidecar. intros [->|(text & -> & -> & Hj)]; [done|].
  simpl. by rewrite Hj.
Qed.

(** A side-car that decodes to something other than an object, or whose
    first tag field holds a true value that is not a string, ends the
    build with [AttributeError]. *)
Lemma sidecar_wrong_type_raises (json_path : Path) (text : string) (meta : json) :
  exists_ fs json_path = Ok true →
  read_text fs json_path = Ok text →
  json_loads text = Ok meta →
  match meta with
  | JObj m => match m !! "tag_string_artist" with
              | Some (JStr _) | None => False
              | Some x => truthy x = true
              end
  | _ => True
  end →
  sidecar_tags fs json_path = Raise AttributeError.
Proof.
  unfold sidecar_tags, read_sidecar. intros -> -> Hm Hwrong. simpl. rewrite Hm.
  destruct meta as [| | | | |m]; try done. simpl.
  destruct (m !! "tag_string_artist") as [x|]; [|done]. simpl.
  unfold split_tags. destruct x; try done; simpl in *; by rewrite Hwrong.
Qed.
End sidecars.

(** C7, at the failing inputs.  With a side-car that is valid JSON but
    holds the number 5 as [tag_string_artist], or that is a JSON list, the
    scan raises [AttributeError]: no item is returned and the store never
    becomes ready.  With a side-car that is not JSON at all, both images
    are indexed and the slots are empty. *)
Theorem sidecar_of_wrong_type_aborts_the_scan :
  let H := Sample.runtime Sample.sidecar_docs in
  (load_items Colab (Sample.with_sidecar "NUMBER") Sample.data None None ()).2
  = Raise AttributeError
  ∧ (load_items Local (Sample.with_sidecar "LIST") Sample.data None None ()).2
    = Raise AttributeError
  ∧ (build_items (H0 := Sample.no_pil) (H1 := Sample.at_once) default_config false
       Sample.data None (Sample.start (Sample.with_sidecar "NUMBER")) fresh).2
    = fresh
  ∧ (load_items Local (Sample.with_sidecar "not json") Sample.data None None ()).2
    = Ok [ {| name := "a.png"; image_url := "/files/a.png"; thumb_url := None;
              display_url := None; caption := ""; tags := empty_tags |};
           {| name := "b.png"; image_url := "/files/b.png"; thumb_url := None;
              display_url := None; caption := ""; tags := empty_tags |} ].
Proof. vm_compute. done. Qed.

(** ** The derivative cache: what a call of [build_resized] can do *)

Lemma assoc_snoc (q k : list string) (n : node) (es : list (list string * node)) :
  assoc q (es ++ [(k, n)])
  = match assoc q es with
    | Some m => Some m
    | None => if decide (k = q) then Some n else None
    end.
Proof.
  induction es as [|[k' n'] es IH]; simpl; [done|].
  destruct (decide (k' = q)); [done|]. apply IH.
Qed.

Lemma assoc_put_file (q k : list string) (d : string) (es : list (list string * node)) :
  assoc k (put_file q d es) = if decide (q = k) then Some (File d) else assoc k es.
Proof.
  induction es as [|[k' n'] es IH]; simpl.
  - destruct (decide (q = k)); done.
  - destruct (decide (k' = q)) as [->|Hne]; simpl.
    + destruct (decide (q = k)); done.
    + destruct (decide (k' = k)) as [->|Hne'].
      * by rewrite decide_False by congruence.
      * apply IH.
Qed.


Lemma dirs_added_refl (fs : filesystem) : dirs_added fs fs.
Proof. split; [done|]. split; [done|]. split; [by left|done]. Qed.

Lemma dirs_added_trans (fs1 fs2 fs3 : filesystem) :
  dirs_added fs1 fs2 → dirs_added fs2 fs3 → dirs_added fs1 fs3.
Proof.
  intros (Hr1 & Hf1 & Ha1 & Hi1) (Hr2 & Hf2 & Ha2 & Hi2).
  split; [congruence|]. split; [congruence|]. split; [|auto].
  intros q. destruct (Ha1 q) as [E1|[E1 E1']], (Ha2 q) as [E2|[E2 E2']].
  - left. congruence.
  - right. split; congruence.
  - right. split; congruence.
  - congruence.
Qed.

Lemma dirs_added_snoc (fs : filesystem) (q : list string) :
  assoc q (fs_entries fs) = None →
  dirs_added fs (with_entries fs (fs_entries fs ++ [(q, Dir)])).
Proof.
  intros Hq. split; [done|]. split; [done|]. split.
  - intros k. simpl. rewrite assoc_snoc. destruct (assoc k (fs_entries fs)) eqn:E; [by left|].
    destruct (decide (q = k)); [by right | by left].
  - intros e He. simpl. apply elem_of_app. by left.
Qed.

(** A directory stays one when directories are added. *)
Lemma node_at_dirs_added (fs fs1 : filesystem) (q : list string) (n : node) :
  dirs_added fs fs1 → node_at fs q = Some n → node_at fs1 q = Some n.
Proof.
  intros (_ & _ & Ha & _). unfold node_at. destruct q as [|c q]; [done|].
  destruct (Ha (c :: q)) as [->|[-> _]]; done.
Qed.

(** What [mkdirs] leaves: directories added, and after a success a
    directory at each of the paths. *)
Lemma mkdirs_spec (todo : list Path) (fs fs' : filesystem) (r : result ()) :
  mkdirs todo fs = (fs', r) →
  dirs_added fs fs'
  ∧ (r = Ok () → Forall (λ p, node_at fs' (fs_resolve fs p) = Some Dir) todo).
Proof.
  revert fs. induction todo as [|p todo IH]; intros fs; simpl.
  - intros [= <- <-]. split; [apply dirs_added_refl|]. by constructor.
  - destruct (fs_fault fs p).
    { intros [= <- <-]. split; [apply dirs_added_refl|done]. }
    destruct (fs_resolve fs p) as [|c q] eqn:Ep.
    { intros Hm. apply IH in Hm as [Hd Hall]. split; [done|].
      intros Hr. constructor; [by rewrite Ep|]. by apply Hall. }
    destruct (assoc (c :: q) (fs_entries fs)) as [[d| |]|] eqn:Ea.
    + intros [= <- <-]. split; [apply dirs_added_refl|done].
    + intros Hm. apply IH in Hm as [Hd Hall]. split; [done|].
      intros Hr. constructor; [|by apply Hall]. rewrite Ep.
      apply (node_at_dirs_added fs); [done|]. unfold node_at. by rewrite Ea.
    + intros [= <- <-]. split; [apply dirs_added_refl|done].
    + intros Hm. apply IH in Hm as [Hd Hall].
      pose proof (dirs_added_snoc fs (c :: q) Ea) as Hs.
      split; [by eapply dirs_added_trans|].
      intros Hr. constructor; [|by apply Hall]. rewrite Ep.
      apply (node_at_dirs_added (with_entries fs (fs_entries fs ++ [(c :: q, Dir)])));
        [done|].
      unfold node_at. simpl. by rewrite assoc_snoc, Ea, decide_True.
Qed.

(** The paths on the way to [t] are the paths down to its parent. *)
Lemma through_upto_parent (t : Path) : through t = upto (parent t).
Proof.
  unfold through, upto, parent. simpl.
  rewrite removelast_firstn_len, length_take.
  replace (Init.Nat.pred (length (parts t)) `min` length (parts t))
    with (length (parts t) - 1) by lia.
  apply list_fmap_ext. intros i k Hk. apply lookup_seq in Hk as [-> Hi].
  f_equal. rewrite take_take. f_equal. lia.
Qed.

Lemma reachable_Forall (fs : filesystem) (p : Path) :
  reachable fs p = true
  ↔ Forall (λ q, node_at fs (fs_resolve fs q) = Some Dir) (through p).
Proof.
  unfold reachable. induction (through p) as [|q l IH]; simpl.
  - split; [constructor|done].
  - by rewrite andb_true_iff, bool_decide_eq_true, Forall_cons, IH.
Qed.

(** What can be reached, and what is there, stays so when directories are
    added. *)
Lemma fs_stat_dirs_added (fs fs1 : filesystem) (p : Path) (n : node) :
  dirs_added fs fs1 → fs_stat fs p = Some n → fs_stat fs1 p = Some n.
Proof.
  intros Hd. unfold fs_stat. destruct (reachable fs p) eqn:Hr; [|done].
  rewrite reachable_Forall in Hr.
  assert (reachable fs1 p = true) as ->.
  { apply reachable_Forall. eapply Forall_impl; [exact Hr|]. intros q Hq. simpl in Hq.
    rewrite (proj1 Hd). by apply (node_at_dirs_added fs). }
  rewrite (proj1 Hd). by apply node_at_dirs_added.
Qed.

Lemma writable_Ok (fs : filesystem) (t : Path) (q : list string) :
  writable fs t = Ok q ↔
  fs_fault fs t = None ∧ reachable fs t = true ∧ fs_resolve fs t = q ∧ q ≠ []
  ∧ assoc q (fs_entries fs) ≠ Some Dir ∧ assoc q (fs_entries fs) ≠ Some Symlink.
Proof.
  unfold writable. destruct (fs_fault fs t).
  { split; [done|]. by intros [? _]. }
  destruct (reachable fs t); simpl.
  2:{ split; [done|]. by intros (_ & ? & _). }
  destruct (fs_resolve fs t) as [|c r].
  { split; [done|]. intros (_ & _ & <- & ? & _). done. }
  destruct (assoc (c :: r) (fs_entries fs)) as [[d| |]|] eqn:E.
  - split; [intros [= <-]; by rewrite E | intros (_ & _ & <- & _); done].
  - split; [done|]. intros (_ & _ & <- & _ & Hd & _). by rewrite E in Hd.
  - split; [done|]. intros (_ & _ & <- & _ & _ & Hs). by rewrite E in Hs.
  - split; [intros [= <-]; by rewrite E | intros (_ & _ & <- & _); done].
Qed.

(** After a regular file was put where [t] can be written, [t] denotes
    that file. *)
Lemma fs_stat_written (fs : filesystem) (t : Path) (q : list string) (d : string) :
  writable fs t = Ok q →
  fs_stat (with_entries fs (put_file q d (fs_entries fs))) t = Some (File d).
Proof.
  intros (_ & Hr & Hq & Hne & Hnd & _)%writable_Ok.
  set (fs2 := with_entries fs (put_file q d (fs_entries fs))).
  assert (∀ k, node_at fs k = Some Dir → node_at fs2 k = Some Dir) as Hdir.
  { intros k. unfold node_at. destruct k as [|c k]; [done|]. simpl.
    rewrite assoc_put_file. destruct (decide (q = c :: k)) as [->|]; [|done].
    destruct (assoc (c :: k) (fs_entries fs)) as [[]|]; done. }
  unfold fs_stat.
  assert (reachable fs2 t = true) as ->.
  { apply reachable_Forall. apply reachable_Forall in Hr.
    eapply Forall_impl; [exact Hr|]. intros p Hp. simpl in Hp. by apply Hdir. }
  simpl. rewrite Hq. unfold node_at. destruct q as [|c q]; [done|]. simpl.
  by rewrite assoc_put_file, decide_True.
Qed.

Section build_resized_cases.
Context `{PIL}.

(** Making the image to save changes nothing but the record of the
    source having been opened. *)
Lemma resized_world (s : Path) (m : nat) (w w1 : world) (r : result image) :
  resized s m w = (w1, r) → w1 = {| w_fs := w_fs w; w_log := w_log w ++ [EvOpen s] |}.
Proof.
  unfold resized, mbind, M_bind, lift, mret, M_ret, Image_open. simpl.
  intros Hrun.
  repeat match type of Hrun with
         | context [match ?x with _ => _ end] =>
             match type of x with
             | result _ => destruct x as [?|?e]
             | bool => destruct x
             | exn => destruct x
             end; simpl in Hrun
         end; by injection Hrun as <- _.
Qed.

(** What [image.save] leaves. *)
Lemma save_jpeg_cases (img : image) (t : Path) (quality : nat) (w w' : world)
    (r : result ()) :
  save_jpeg img t quality w = (w', r) →
  w_log w' = w_log w ++ [EvSave t]
  ∧ ((∃ e, r = Raise e ∧ w_fs w' = w_fs w)
     ∨ (∃ q d, writable (w_fs w) t = Ok q
               ∧ w_fs w' = with_entries (w_fs w) (put_file q d (fs_entries (w_fs w)))
               ∧ (r = Ok () ∧ image_save img "JPEG" quality true = Saved d
                  ∨ ∃ e d0, r = Raise e ∧ assoc q (fs_entries (w_fs w)) = Some (File d0)
                            ∧ image_save img "JPEG" quality true = SaveFailed (Some d) e))).
Proof.
  unfold save_jpeg.
  destruct (image_save img "JPEG" quality true) as [d|[d|] e] eqn:Es.
  - destruct (writable (w_fs w) t) as [q|e] eqn:Ew; intros [= <- <-]; simpl.
    + split; [done|]. right. exists q, d. split; [done|]. split; [done|]. by left.
    + split; [done|]. left. by exists e.
  - destruct (writable (w_fs w) t) as [q|e'] eqn:Ew.
    2:{ intros [= <- <-]. split; [done|]. left. by eexists. }
    destruct (assoc q (fs_entries (w_fs w))) as [n|] eqn:Ea; intros [= <- <-]; simpl.
    + split; [done|]. right. exists q, d. split; [done|]. split; [done|]. right.
      apply writable_Ok in Ew as (_ & _ & _ & _ & Hnd & Hns).
      destruct n as [d0| |]; [|done|done]. by exists e, d0.
    + split; [done|]. left. by eexists.
  - intros [= <- <-]. split; [done|]. left. by eexists.
Qed.

(** A call of [build_resized] either raises what the existence check
    raised, or returns at once, or stops before the encoder with at most
    some directories created, or reaches the encoder, which then decides
    what is at the target. *)
Lemma build_resized_cases (s t : Path) (max_size quality : nat) (w w' : world)
    (r : result bool) :
  build_resized s t max_size quality w = (w', r) →
  (∃ e, exists_ (w_fs w) t = Raise e ∧ w' = w ∧ r = Raise e)
  ∨ (w' = w ∧ r = Ok false
     ∧ (exists_ (w_fs w) t = Ok true
        ∨ (exists_ (w_fs w) t = Ok false ∧ PIL_AVAILABLE = false)))
  ∨ (exists_ (w_fs w) t = Ok false ∧ PIL_AVAILABLE = true ∧ r = Ok false
     ∧ w_log w' = w_log w ++ [EvOpen s]
     ∧ dirs_added (w_fs w) (w_fs w'))
  ∨ (exists_ (w_fs w) t = Ok false ∧ PIL_AVAILABLE = true
     ∧ w_log w' = w_log w ++ [EvOpen s; EvSave t]
     ∧ ∃ fs1 img r',
         dirs_added (w_fs w) fs1
         ∧ Forall (λ p, node_at fs1 (fs_resolve fs1 p) = Some Dir) (through t)
         ∧ save_jpeg img t quality {| w_fs := fs1; w_log := w_log w ++ [EvOpen s] |}
           = (w', r')
         ∧ r = match r' with Ok _ => Ok true | Raise _ => Ok false end).
Proof.
  unfold build_resized.
  destruct (exists_ (w_fs w) t) as [[]|e] eqn:Eex.
  { intros [= <- <-]. right. left. auto. }
  2:{ intros [= <- <-]. left. by exists e. }
  destruct PIL_AVAILABLE eqn:Epil; simpl.
  2:{ intros [= <- <-]. right. left. auto. }
  unfold resize_and_save. unfold mbind at 1, M_bind at 1.
  destruct (resized s max_size w) as [w1 [img|e]] eqn:Er;
    apply resized_world in Er as ->.
  2:{ intros [= <- <-]. right. right. left. simpl. repeat (split; [done|]).
      apply dirs_added_refl. }
  unfold mbind, M_bind, mkdir_parents. simpl.
  destruct (mkdirs (upto (parent t)) (w_fs w)) as [fs1 [[]|e]] eqn:Em;
    apply mkdirs_spec in Em as [Hd Hall].
  2:{ intros [= <- <-]. right. right. left. simpl. repeat (split; [done|]). done. }
  intros Hrun. right. right. right. split; [done|]. split; [done|].
  destruct (save_jpeg img t quality _) as [w2 r'] eqn:Es.
  pose proof (save_jpeg_cases _ _ _ _ _ _ Es) as [Hlog _]. simpl in Hlog.
  assert (w' = w2 ∧ r = match r' with Ok _ => Ok true | Raise _ => Ok false end) as [-> ->].
  { destruct r' as [[]|e]; by injection Hrun as <- <-. }
  split; [by rewrite Hlog, <- app_assoc|].
  exists fs1, img, r'. split; [done|]. split; [|done].
  rewrite through_upto_parent, (proj1 Hd). by apply Hall.
Qed.

(** A call that returned [True] went all the way: the encoder produced
    the bytes that are now at the target. *)
Lemma build_resized_true (s t : Path) (max_size quality : nat) (w w' : world) :
  build_resized s t max_size quality w = (w', Ok true) →
  exists_ (w_fs w) t = Ok false ∧ PIL_AVAILABLE = true
  ∧ w_log w' = w_log w ++ [EvOpen s; EvSave t]
  ∧ ∃ fs1 img d,
      dirs_added (w_fs w) fs1
      ∧ image_save img "JPEG" quality true = Saved d
      ∧ writable fs1 t = Ok (fs_resolve fs1 t)
      ∧ w_fs w' = fs_write fs1 t d.
Proof.
  intros Hrun.
  apply build_resized_cases in Hrun
    as [(e & _ & _ & [=])|[(_ & [=] & _)|[(_ & _ & [=] & _)|Hsave]]].
  destruct Hsave as (Hex & Hpil & Hlog & fs1 & img & r' & Hd & _ & Hs & Hr).
  repeat (split; [done|]). exists fs1, img.
  apply save_jpeg_cases in Hs as [_ [(e & -> & _)|(q & d & Hw & Hfs & Hcase)]]; [done|].
  simpl in *. destruct Hcase as [[-> Hsaved]|(e & d0 & -> & _)]; [|done].
  exists d. split; [done|]. split; [done|].
  pose proof Hw as (_ & _ & Hq & _)%writable_Ok. by subst q.
Qed.

(** [build_resized] raises only what its existence check raises. *)
Lemma build_resized_returns (s t : Path) (m q : nat) (w : world) (b : bool) :
  exists_ (w_fs w) t = Ok b → ∃ w' b', build_resized s t m q w = (w', Ok b').
Proof.
  intros Hex. destruct (build_resized s t m q w) as [w' r] eqn:Hrun.
  apply build_resized_cases in Hrun
    as [(e & He & _)|[(_ & -> & _)|[(_ & _ & -> & _)|Hsave]]]; [congruence|by eexists _, _..|].
  destruct Hsave as (_ & _ & _ & fs1 & img & r' & _ & _ & _ & ->).
  destruct r'; by eexists _, _.
Qed.

(** It changes neither how paths resolve nor which system errors there
    are. *)
Lemma build_resized_keeps (s t : Path) (m q : nat) (w w' : world) (r : result bool) :
  build_resized s t m q w = (w', r) →
  fs_resolve (w_fs w') = fs_resolve (w_fs w) ∧ fs_fault (w_fs w') = fs_fault (w_fs w).
Proof.
  intros Hrun.
  apply build_resized_cases in Hrun
    as [(e & _ & -> & _)|[(-> & _)|[(_ & _ & _ & _ & Hd)|Hsave]]]; [done|done| |].
  { split; apply Hd. }
  destruct Hsave as (_ & _ & _ & fs1 & img & r' & Hd & _ & Hs & _).
  apply save_jpeg_cases in Hs as [_ [(e & _ & Hfs)|(k & d & _ & Hfs & _)]];
    simpl in Hfs; rewrite Hfs; simpl; split; apply Hd.
Qed.
End build_resized_cases.

(** ** C9: a second call is a cache hit *)

(** C9.  When Pillow is available and a first call of [build_resized] has
    written the cache file (it returned [True]), a second call with the same
    arguments finds the file and returns at once: the file system is
    unchanged and no imaging operation is performed, so the source is
    neither opened nor encoded again. *)
Theorem build_resized_second_call_is_a_cache_hit `{PIL} (s t : Path)
    (max_size quality : nat) (w w1 : world) :
  PIL_AVAILABLE = true →
  build_resized s t max_size quality w = (w1, Ok true) →
  exists_ (w_fs w1) t = Ok true
  ∧ build_resized s t max_size quality w1 = (w1, Ok false)
  ∧ w_log (build_resized s t max_size quality w1).1 = w_log w1.
Proof.
  intros _ Hrun.
  assert (Hex : exists_ (w_fs w1) t = Ok true).
  { apply build_resized_true in Hrun
      as (Hex & _ & _ & fs1 & img & d & Hd & _ & Hw & ->).
    unfold exists_, stat in *. simpl. rewrite (proj1 (proj2 Hd)).
    destruct (fs_fault (w_fs w) t); [done|]. simpl.
    unfold fs_write. by rewrite (fs_stat_written fs1 t _ d Hw). }
  split; [done|]. unfold build_resized. by rewrite Hex.
Qed.

(** C9 at a concrete input: the thumbnail of [/data/a.png]. *)
Lemma build_resized_second_call_is_a_cache_hit_witness :
  let H := Sample.pil (Saved "JPEG") in
  let t := make_thumb_path Sample.data (Path_of "a.png") in
  let w := Sample.start Sample.one_image in
  let w1 := {| w_fs := Sample.plain [ (["data"], Dir); (["data"; "a.png"], File "PNG");
                                      (["data"; ".thumbs"], Dir);
                                      (["data"; ".thumbs"; "a.png.thumb.jpg"], File "JPEG") ];
               w_log := [EvOpen Sample.a_png; EvSave t] |} in
  PIL_AVAILABLE = true
  ∧ build_resized Sample.a_png t 360 82 w = (w1, Ok true)
  ∧ exists_ (w_fs w1) t = Ok true
  ∧ build_resized Sample.a_png t 360 82 w1 = (w1, Ok false)
  ∧ w_log (build_resized Sample.a_png t 360 82 w1).1 = w_log w1.
Proof.
  intros H t w w1. split; [reflexivity|]. split; [vm_compute; reflexivity|].
  apply (build_resized_second_call_is_a_cache_hit Sample.a_png t 360 82 w w1).
  - reflexivity.
  - vm_compute. reflexivity.
Defined.

(** ** C3: failures of the derivative pipeline *)


(** ** C6: derivative requests without Pillow *)

Section without_pil.
Context `{Runtime} `{PIL}.
Variables (cfg : Config) (root : Path) (store : ItemStore).





Lemma do_GET_thumbs (rest : string) :
  do_GET cfg root store ("/thumbs/" +:+ rest) = get_thumb cfg root rest.
Proof. unfold do_GET. destruct (decide _) as [Heq|_]; [by simpl in Heq|done]. Qed.

Lemma do_GET_display (rest : string) :
  do_GET cfg root store ("/display/" +:+ rest) = get_display cfg root rest.
Proof. unfold do_GET. destruct (decide _) as [Heq|_]; [by simpl in Heq|done]. Qed.
End without_pil.




(** ** C10: cache files are scanned as images *)

Lemma string_length_app (w t : string) :
  String.length (w +:+ t) = String.length w + String.length t.
Proof. induction w as [|c w IH]; simpl; [done|]. by rewrite IH. Qed.


Lemma substring_skip (w t : string) (i n : nat) :
  String.substring (String.length w + i) n (w +:+ t) = String.substring i n t.
Proof. induction w as [|c w IH]; simpl; done. Qed.

Lemma split_on_app_last (sep : ascii) (s t : string) :
  Str.split_on sep t = [t] →
  ∃ ws w, Str.split_on sep s = ws ++ [w] ∧ Str.split_on sep (s +:+ t) = ws ++ [w +:+ t].
Proof.
  intros Ht. induction s as [|c s (ws & w & Hs & Hst)].
  - exists [], "". split; [done | exact Ht].
  - simpl. destruct (decide (c = sep)).
    + exists ("" :: ws), w. by rewrite Hs, Hst.
    + rewrite Hs, Hst. destruct ws as [|w0 ws]; simpl.
      * by exists [], (String c w).
      * by exists (String c w0 :: ws), w.
Qed.





Section scanning.
Context `{Runtime}.
Variables (v : variant) (fs : filesystem) (root : Path).




(** Outside manifest mode, a [load_items] that returns has run the scan. *)
Lemma load_items_scan {St} (pr : option (nat → St → St)) index_path (st st' : St)
    (its : list Item) :
  manifest_mode fs index_path = false →
  load_items v fs root pr index_path st = (st', Ok its) →
  load_from_scan v fs root pr st = (st', Ok its).
Proof.
  unfold load_items, manifest_mode. destruct index_path as [q|]; [|done].
  by destruct (exists_ fs q) as [[]|e].
Qed.

End scanning.



(** * Further properties of the servers *)

(** ** White space *)

Lemma string_app_cons (c : ascii) (s t : string) : String c s +:+ t = String c (s +:+ t).
Proof. reflexivity. Qed.

Lemma string_app_nil_l (s : string) : "" +:+ s = s.
Proof. reflexivity. Qed.

Lemma string_app_nil_r (s : string) : s +:+ "" = s.
Proof. induction s as [|c s IH]; [done|]. by rewrite string_app_cons, IH. Qed.

Lemma string_app_assoc (a b c : string) : (a +:+ b) +:+ c = a +:+ (b +:+ c).
Proof. induction a as [|x a IH]; [done|]. by rewrite !string_app_cons, IH. Qed.

Lemma string_app_eq_nil (a b : string) : a +:+ b = "" → a = "" ∧ b = "".
Proof. destruct a; [by rewrite string_app_nil_l|by rewrite string_app_cons]. Qed.

Lemma strip_prefix_more (p s r x : string) :
  Str.strip_prefix p s = Some r → Str.strip_prefix p (s +:+ x) = Some (r +:+ x).
Proof.
  revert s. induction p as [|a p IH]; intros s; simpl.
  - by intros [= ->].
  - destruct s as [|b s]; [done|]. rewrite string_app_cons. simpl.
    destruct (decide (a = b)); [apply IH|done].
Qed.

Lemma strip_prefix_Some (p s r : string) : Str.strip_prefix p s = Some r ↔ s = p +:+ r.
Proof.
  revert s. induction p as [|a p IH]; intros s; simpl.
  - rewrite string_app_nil_l. split; [by intros [= ->]|by intros ->].
  - rewrite string_app_cons.
    destruct s as [|b s]; [done|]. destruct (decide (a = b)) as [->|Hne].
    + rewrite IH. split; [by intros ->|by intros [= ->]].
    + split; [done|]. intros [= ? _]. congruence.
Qed.

(** A text that starts with white space still does when it goes on. *)
Lemma first_prefix_more (ps : list string) (s x : string) :
  is_Some (Str.first_prefix ps s) → is_Some (Str.first_prefix ps (s +:+ x)).
Proof.
  induction ps as [|p ps IH]; simpl; [done|].
  destruct (Str.strip_prefix p s) as [r|] eqn:E.
  - intros _. by rewrite (strip_prefix_more _ _ _ x E).
  - intros Hs. destruct (Str.strip_prefix p (s +:+ x)); [done|]. by apply IH.
Qed.

Lemma space_prefix_less (s x : string) :
  Str.space_prefix (s +:+ x) = None → Str.space_prefix s = None.
Proof.
  intros Hn. destruct (Str.space_prefix s) as [r|] eqn:E; [|done].
  destruct (first_prefix_more Str.white_space s x) as [r' Hr']; [by eexists|].
  unfold Str.space_prefix in Hn. congruence.
Qed.

Lemma first_prefix_elem (ps : list string) (s r : string) :
  Str.first_prefix ps s = Some r → ∃ p, p ∈ ps ∧ s = p +:+ r.
Proof.
  induction ps as [|p ps IH]; simpl; [done|].
  destruct (Str.strip_prefix p s) as [r'|] eqn:E.
  - intros [= ->]. exists p. split; [left|]. by apply strip_prefix_Some.
  - intros (q & Hq & Hs)%IH. exists q. split; [by right|done].
Qed.

(** No white-space character is the beginning of another one, so the
    character at the head of a text is found whatever follows it. *)
Lemma space_prefix_white_space :
  Forall (λ sp, sp ≠ "" ∧ ∀ t, Str.space_prefix (sp +:+ t) = Some t) Str.white_space.
Proof.
  unfold Str.white_space. simpl.
  repeat (constructor; [split; [done|]; intros t; vm_compute; reflexivity|]).
  constructor.
Qed.

Lemma space_prefix_app (sp t : string) :
  sp ∈ Str.white_space → sp ≠ "" ∧ Str.space_prefix (sp +:+ t) = Some t.
Proof.
  intros Hsp. pose proof space_prefix_white_space as Hall.
  rewrite list.Forall_forall in Hall. destruct (Hall sp Hsp) as [Hne Ht]. by split.
Qed.

Lemma space_prefix_nil : Str.space_prefix "" = None.
Proof. vm_compute. reflexivity. Qed.

(** ** Tags *)

(** No white-space character starts in the first [n] bytes of [u]. *)
Lemma no_space_from_context (cur s : string) :
  (∀ a b, cur = a +:+ b → b ≠ "" → Str.space_prefix (b +:+ s) = None) →
  no_space cur = true.
Proof.
  induction cur as [|c cur IH]; intros Hc; simpl; [done|].
  apply andb_true_iff. split.
  - apply bool_decide_eq_true. apply (space_prefix_less _ s). by apply (Hc "").
  - apply IH. intros a b -> Hb. by apply (Hc (String c a)).
Qed.

Lemma app_snoc_inv (a b cur : string) (c : ascii) :
  a +:+ b = cur +:+ String c "" → b ≠ "" →
  ∃ b', b = b' +:+ String c "" ∧ cur = a +:+ b'.
Proof.
  revert cur. induction a as [|x a IH]; intros cur.
  - rewrite string_app_nil_l. intros -> _. by exists cur.
  - rewrite string_app_cons. destruct cur as [|y cur].
    + rewrite string_app_nil_l. intros [= -> Hab] Hb.
      by apply string_app_eq_nil in Hab as [_ ->].
    + rewrite string_app_cons. intros [= -> Hab] Hb.
      destruct (IH cur Hab Hb) as (b' & -> & ->). by exists b'.
Qed.

(** The tokens [split_ws_from] gives are clean when the token it is
    reading is. *)
Lemma split_ws_from_clean (s : string) (skip : nat) (cur : string) :
  (skip = 0 ∨ cur = "") →
  (∀ a b, cur = a +:+ b → b ≠ "" → Str.space_prefix (b +:+ s) = None) →
  Forall clean_token (Str.split_ws_from skip cur s).
Proof.
  assert (Hflush : ∀ cur s,
             (∀ a b, cur = a +:+ b → b ≠ "" → Str.space_prefix (b +:+ s) = None) →
             Forall clean_token (if decide (cur = "") then [] else [cur])).
  { intros cur' s' Hc. destruct (decide (cur' = "")); [constructor|].
    repeat constructor; [done|]. by apply (no_space_from_context _ s'). }
  assert (Hnil : ∀ s' a b, "" = a +:+ b → b ≠ "" → Str.space_prefix (b +:+ s') = None).
  { intros s' a b Hab Hb. symmetry in Hab. by apply string_app_eq_nil in Hab as [_ ->]. }
  revert skip cur. induction s as [|c s IH]; intros skip cur Hskip Hc; simpl.
  - by apply (Hflush cur "").
  - destruct skip as [|k].
    2:{ destruct Hskip as [Hk| ->]; [done|]. apply IH; [by right|apply Hnil]. }
    destruct (Str.space_prefix (String c s)) as [r|] eqn:E.
    + apply Forall_app. split; [by apply (Hflush cur (String c s))|].
      apply IH; [by right|apply Hnil].
    + apply IH; [by left|]. intros a b Hab Hb.
      destruct (app_snoc_inv a b cur c (eq_sym Hab) Hb) as (b' & -> & ->).
      rewrite string_app_assoc, string_app_cons, string_app_nil_l.
      destruct b' as [|x b']; [by rewrite string_app_nil_l|].
      by apply (Hc a).
Qed.

Lemma split_ws_clean (s : string) : Forall clean_token (Str.split_ws s).
Proof.
  apply split_ws_from_clean; [by left|]. intros a b Hab Hb.
  symmetry in Hab. by apply string_app_eq_nil in Hab as [_ ->].
Qed.

Lemma split_tags_Ok_clean (v : json) (l : list string) :
  split_tags v = Ok l → Forall clean_token l.
Proof.
  unfold split_tags. destruct (if truthy v then v else JStr "") as [| | |s| |]; try done.
  intros [= <-]. apply list.Forall_forall. intros t Ht.
  apply list_elem_of_filter in Ht as [_ Ht].
  by eapply (proj1 (list.Forall_forall _ _) (split_ws_clean s)).
Qed.

(** X1.  [split_tags] gives no tag at all for a value Python takes as
    false ([null], [false], [0], the empty string, list or object); for a
    string it gives tokens none of which is empty or holds a white-space
    character, of ASCII or of another script; for every other value it
    raises [AttributeError]. *)
Theorem split_tags_tokens (value : json) :
  (truthy value = false → split_tags value = Ok [])
  ∧ (∀ s, value = JStr s →
          ∃ l, split_tags value = Ok l ∧ Forall clean_token l)
  ∧ (truthy value = true → (∀ s, value ≠ JStr s) →
     split_tags value = Raise AttributeError).
Proof.
  split; [|split].
  - unfold split_tags. intros ->. done.
  - intros s ->. destruct (split_tags (JStr s)) as [l|e] eqn:E.
    + exists l. split; [done|]. by eapply split_tags_Ok_clean.
    + unfold split_tags in E. by destruct (truthy (JStr s)).
  - unfold split_tags. intros -> Hns. destruct value; try done. by destruct (Hns s).
Qed.

Lemma tag_field_raises (meta : json) (key : string) (e : exn) :
  (x ← json_get meta key JNull; split_tags x) = Raise e → e = AttributeError.
Proof.
  destruct meta as [| | | | |m]; simpl; try (by intros [= <-]).
  unfold split_tags. destruct (if truthy _ then _ else _); try done; by intros [= <-].
Qed.

Lemma tag_field_object (meta : json) (key : string) (l : list string) :
  (x ← json_get meta key JNull; split_tags x) = Ok l →
  ∃ m, meta = JObj m ∧ split_tags (default JNull (m !! key)) = Ok l.
Proof. destruct meta as [| | | | |m]; simpl; try done. intros Hl. by exists m. Qed.

(** X2.  In a directory scan the four tag slots of an item are either
    all empty, or the side-car is a JSON object and each slot is the list of
    the tokens of its field, as [split_tags] makes them; in both cases each
    slot is a list of strings none of which is empty or holds white
    space. *)
Theorem sidecar_tags_are_token_lists `{Runtime} (fs : filesystem) (json_path : Path)
    (t : Tags) :
  sidecar_tags fs json_path = Ok t →
  (t = empty_tags
   ∨ ∃ text m a c ch g,
       read_text fs json_path = Ok text ∧ json_loads text = Ok (JObj m)
       ∧ split_tags (default JNull (m !! "tag_string_artist")) = Ok a
       ∧ split_tags (default JNull (m !! "tag_string_copyright")) = Ok c
       ∧ split_tags (default JNull (m !! "tag_string_character")) = Ok ch
       ∧ split_tags (default JNull (m !! "tag_string_general")) = Ok g
       ∧ t = mkTags (json_strings a) (json_strings c) (json_strings ch) (json_strings g))
  ∧ ∃ a c ch g,
      t = mkTags (json_strings a) (json_strings c) (json_strings ch) (json_strings g)
      ∧ Forall clean_token a ∧ Forall clean_token c
      ∧ Forall clean_token ch ∧ Forall clean_token g.
Proof.
  assert (Hempty : ∃ a c ch g,
             empty_tags
             = mkTags (json_strings a) (json_strings c) (json_strings ch) (json_strings g)
             ∧ Forall clean_token a ∧ Forall clean_token c
             ∧ Forall clean_token ch ∧ Forall clean_token g).
  { exists [], [], [], []. repeat split; constructor. }
  unfold sidecar_tags, read_sidecar.
  destruct (exists_ fs json_path) as [[]|e]; simpl; [|by intros [= <-]; split; [left|]|done].
  destruct (read_text fs json_path) as [text|e]; simpl.
  2:{ destruct e; try done; intros [= <-]; (split; [by left|done]). }
  destruct (json_loads text) as [meta|e] eqn:Em.
  2:{ destruct e; try done; intros [= <-]; (split; [by left|done]). }
  destruct (_ ← json_get meta "tag_string_artist" JNull; _) as [a|e] eqn:Ea.
  2:{ apply tag_field_raises in Ea as ->. done. }
  destruct (_ ← json_get meta "tag_string_copyright" JNull; _) as [c|e] eqn:Ec.
  2:{ apply tag_field_raises in Ec as ->. done. }
  destruct (_ ← json_get meta "tag_string_character" JNull; _) as [ch|e] eqn:Ech.
  2:{ apply tag_field_raises in Ech as ->. done. }
  destruct (_ ← json_get meta "tag_string_general" JNull; _) as [g|e] eqn:Eg.
  2:{ apply tag_field_raises in Eg as ->. done. }
  simpl. intros [= <-].
  apply tag_field_object in Ea as (m & -> & Ea).
  apply tag_field_object in Ec as (? & [= <-] & Ec).
  apply tag_field_object in Ech as (? & [= <-] & Ech).
  apply tag_field_object in Eg as (? & [= <-] & Eg).
  split.
  - right. by exists text, m, a, c, ch, g.
  - exists a, c, ch, g. split; [done|].
    repeat split; by eapply split_tags_Ok_clean.
Qed.

(** X2 at the side-car of the specification's example. *)
Lemma sidecar_tags_are_token_lists_witness :
  let H := Sample.runtime Sample.sidecar_docs in
  let t := mkTags (JArr []) (JArr []) (JArr []) (JArr [JStr "cat"; JStr "outdoor"]) in
  sidecar_tags Sample.captioned (Path_of "/data/a.png.json") = Ok t
  ∧ (t = empty_tags
     ∨ ∃ text m a c ch g,
         read_text Sample.captioned (Path_of "/data/a.png.json") = Ok text
         ∧ json_loads text = Ok (JObj m)
         ∧ split_tags (default JNull (m !! "tag_string_artist")) = Ok a
         ∧ split_tags (default JNull (m !! "tag_string_copyright")) = Ok c
         ∧ split_tags (default JNull (m !! "tag_string_character")) = Ok ch
         ∧ split_tags (default JNull (m !! "tag_string_general")) = Ok g
         ∧ t = mkTags (json_strings a) (json_strings c) (json_strings ch) (json_strings g))
  ∧ ∃ a c ch g,
      t = mkTags (json_strings a) (json_strings c) (json_strings ch) (json_strings g)
      ∧ Forall clean_token a ∧ Forall clean_token c
      ∧ Forall clean_token ch ∧ Forall clean_token g.
Proof.
  intros H t. split; [vm_compute; reflexivity|].
  apply (sidecar_tags_are_token_lists Sample.captioned (Path_of "/data/a.png.json") t).
  vm_compute. reflexivity.
Defined.

(** ** What the index holds *)

Section index_items.
Context `{Runtime}.
Variables (v : variant) (fs : filesystem) (root : Path).

Lemma read_caption_cases (p : Path) (c : string) :
  read_caption fs p = Ok c →
  (exists_ fs p = Ok false ∧ c = "")
  ∨ (∃ text, exists_ fs p = Ok true ∧ read_text fs p = Ok text ∧ c = Str.strip text).
Proof.
  unfold read_caption. destruct (exists_ fs p) as [[]|e]; simpl; [| |done].
  - destruct (read_text fs p) as [text|e]; simpl; [|done].
    intros [= <-]. right. by exists text.
  - intros [= <-]. by left.
Qed.

(** An item of the manifest loop, in full. *)
Lemma manifest_row_item line it :
  manifest_row v fs root line = Ok (Some it) →
  ∃ m p rel c q,
    json_loads (Str.strip line) = Ok (JObj m)
    ∧ default (JStr "") (m !! "image_path") = JStr p
    ∧ safe_relative fs root (anchored root (Path_of p)) = Some rel
    ∧ exists_ fs (anchored root (Path_of p)) = Ok true
    ∧ default (JStr "") (m !! "caption_path") = JStr q
    ∧ read_caption fs (anchored root (Path_of q)) = Ok c
    ∧ it = make_item v (anchored root (Path_of p)) rel c
             (mkTags (default (JArr []) (m !! "artist"))
                     (default (JArr []) (m !! "copyright"))
                     (default (JArr []) (m !! "character"))
                     (default (JArr []) (m !! "general"))).
Proof.
  unfold manifest_row. destruct (decide _); [done|].
  destruct (json_loads (Str.strip line)) as [row|e]; [|by destruct e].
  destruct row as [| | | | |m]; simpl; try done.
  destruct (default (JStr "") (m !! "image_path")) as [| | |p| |] eqn:Ep; simpl; try done.
  destruct (safe_relative _ _ _) as [rel|] eqn:Erel; [|done].
  destruct (exists_ fs (anchored root (Path_of p))) as [[]|e] eqn:Eex; simpl; [|done|done].
  destruct (default (JStr "") (m !! "caption_path")) as [| | |q| |] eqn:Eq; simpl; try done.
  destruct (read_caption fs (anchored root (Path_of q))) as [c|e] eqn:Ec; simpl; [|done].
  intros [= <-]. by exists m, p, rel, c, q.
Qed.

(** An item of the scan loop, in full. *)
Lemma scan_path_item path it :
  scan_path v fs root path = Ok (Some it) →
  ∃ rel c t,
    Str.lower (suffix path) ∈ IMAGE_EXTS
    ∧ safe_relative fs root path = Some rel
    ∧ read_caption fs (Path_of (as_posix path +:+ ".caption.txt")) = Ok c
    ∧ sidecar_tags fs (Path_of (as_posix path +:+ ".json")) = Ok t
    ∧ it = make_item v path rel c t.
Proof.
  unfold scan_path. case_bool_decide as Hext; [done|].
  destruct (safe_relative fs root path) as [rel|] eqn:Erel; [|done].
  destruct (read_caption _ _) as [c|e] eqn:Ec; simpl; [|done].
  destruct (sidecar_tags _ _) as [t|e] eqn:Et; simpl; [|done].
  intros [= <-]. exists rel, c, t. split; [|done].
  by destruct (decide (Str.lower (suffix path) ∈ IMAGE_EXTS)).
Qed.

Lemma manifest_loop_Forall {St} (P : Item → Prop) (pr : option (nat → St → St))
    ls idx acc st its :
  (∀ line it, line ∈ ls → manifest_row v fs root line = Ok (Some it) → P it) →
  Forall P acc →
  (manifest_loop v fs root pr ls idx acc st).2 = Ok its → Forall P its.
Proof.
  revert idx acc st. induction ls as [|l ls IH]; intros idx acc st Hrow Hacc; simpl.
  - by intros [= <-].
  - destruct (manifest_row v fs root l) as [[x|]|e] eqn:E; [| |done].
    + apply IH; [intros; eapply Hrow; [by right|done]|].
      apply Forall_app. split; [done|]. constructor; [|done]. eapply Hrow; [left|done].
    + apply IH; [|done]. intros; eapply Hrow; [by right|done].
Qed.

Lemma scan_loop_Forall {St} (P : Item → Prop) (pr : option (nat → St → St))
    paths idx acc st its :
  (∀ path it, path ∈ paths → scan_path v fs root path = Ok (Some it) → P it) →
  Forall P acc →
  (scan_loop v fs root pr paths idx acc st).2 = Ok its → Forall P its.
Proof.
  revert idx acc st. induction paths as [|l ls IH]; intros idx acc st Hrow Hacc; simpl.
  - by intros [= <-].
  - destruct (scan_path v fs root l) as [[x|]|e] eqn:E; [| |done].
    + apply IH; [intros; eapply Hrow; [by right|done]|].
      apply Forall_app. split; [done|]. constructor; [|done]. eapply Hrow; [left|done].
    + apply IH; [|done]. intros; eapply Hrow; [by right|done].
Qed.

Lemma sort_items_Forall (P : Item → Prop) (l : list Item) :
  Forall P l → Forall P (sort_items l).
Proof. intros Hl. by rewrite sort_items_perm. Qed.

(** What holds of every item a row or a path gives holds of every item of
    the index. *)
Lemma load_items_Forall {St} (P : Item → Prop) (pr : option (nat → St → St))
    index_path st st' its :
  (∀ line it, manifest_row v fs root line = Ok (Some it) → P it) →
  (∀ path it, path ∈ rglob fs root → scan_path v fs root path = Ok (Some it) → P it) →
  load_items v fs root pr index_path st = (st', Ok its) → Forall P its.
Proof.
  intros Hrow Hpath Hload.
  assert ((load_items v fs root pr index_path st).2 = Ok its) as Hl by (by rewrite Hload).
  rewrite load_items_sorts in Hl.
  destruct (items_appended v fs root pr index_path st) as [l|e] eqn:El; [|done].
  injection Hl as <-. apply sort_items_Forall.
  assert (Hscan : (scan_items v fs root pr st).2 = Ok l → Forall P l).
  { unfold scan_items. intros Hs. eapply scan_loop_Forall; [|constructor|exact Hs]. done. }
  unfold items_appended in El.
  destruct index_path as [p|]; [|by apply Hscan].
  destruct (exists_ fs p) as [[]|e]; [|by apply Hscan|done].
  rewrite manifest_items_result in El. destruct (read_bytes fs p) as [data|e]; [|done].
  destruct (manifest_loop _ _ _ _ _ _ _ _).2 as [l'|e] eqn:Eloop.
  2:{ by destruct (text_lines data).2. }
  destruct (text_lines data).2; [done|]. injection El as ->.
  eapply manifest_loop_Forall; [|constructor|exact Eloop]. intros; by eapply Hrow.
Qed.
End index_items.

(** X3.  Whatever the mode and the server, every item of the index is
    built from a path the sandbox accepted: its name is the last component
    of that path, and its file URL (and, on the Colab server, its thumbnail
    and display URLs) are all built from the one sandbox-relative form of
    it. *)
Theorem index_items_are_sandboxed `{Runtime} (v : variant) (fs : filesystem) (root : Path)
    {St : Type} (pr : option (nat → St → St)) (index_path : option Path) (st st' : St)
    (its : list Item) :
  load_items v fs root pr index_path st = (st', Ok its) →
  Forall (λ it, ∃ path rel,
            safe_relative fs root path = Some rel
            ∧ inside fs root path
            ∧ name it = name_of path
            ∧ urls_of v rel it) its.
Proof.
  apply load_items_Forall.
  - intros line it Hrow.
    apply manifest_row_item in Hrow as (m & p & rel & c & q & _ & _ & Hrel & _ & _ & _ & ->).
    exists (anchored root (Path_of p)), rel. split; [done|]. split; [|done].
    apply safe_relative_Some in Hrel as [_ Hrel]. by exists (parts rel).
  - intros path it _ Hpath.
    apply scan_path_item in Hpath as (rel & c & t & _ & Hrel & _ & _ & ->).
    exists path, rel. split; [done|]. split; [|done].
    apply safe_relative_Some in Hrel as [_ Hrel]. by exists (parts rel).
Qed.

(** X3 at the scan of a root with one captioned image. *)
Lemma index_items_are_sandboxed_witness :
  let H := Sample.runtime Sample.sidecar_docs in
  ∃ its,
    load_items Colab Sample.captioned Sample.data None None () = ((), Ok its)
    ∧ length its = 1
    ∧ Forall (λ it, ∃ path rel,
                safe_relative Sample.captioned Sample.data path = Some rel
                ∧ inside Sample.captioned Sample.data path
                ∧ name it = name_of path
                ∧ urls_of Colab rel it) its.
Proof.
  intros H. eexists. split; [vm_compute; reflexivity|]. split; [reflexivity|].
  apply (index_items_are_sandboxed Colab Sample.captioned Sample.data None None () ()).
  vm_compute. reflexivity.
Defined.

Lemma scan_loop_length `{Runtime} (v : variant) (fs : filesystem) (root : Path) {St}
    (pr : option (nat → St → St)) paths idx acc st its :
  (scan_loop v fs root pr paths idx acc st).2 = Ok its →
  length its ≤ length acc + length paths.
Proof.
  revert idx acc st. induction paths as [|l ls IH]; intros idx acc st; simpl.
  - intros [= <-]. lia.
  - destruct (scan_path v fs root l) as [[x|]|e] eqn:E; [| |done].
    + intros Hl. apply IH in Hl. rewrite length_app in Hl. simpl in Hl. lia.
    + intros Hl. apply IH in Hl. lia.
Qed.

(** X4.  A directory scan indexes nothing but entries enumerated below
    the root whose extension, lower-cased, is one of the five image
    extensions, and at most one item per entry: the index is never longer
    than the enumeration. *)
Theorem scan_indexes_only_images `{Runtime} (v : variant) (fs : filesystem) (root : Path)
    {St : Type} (pr : option (nat → St → St)) (index_path : option Path) (st st' : St)
    (its : list Item) :
  manifest_mode fs index_path = false →
  load_items v fs root pr index_path st = (st', Ok its) →
  length its ≤ length (rglob fs root)
  ∧ Forall (λ it, ∃ path, path ∈ rglob fs root
                          ∧ Str.lower (suffix path) ∈ IMAGE_EXTS
                          ∧ name it = name_of path) its.
Proof.
  intros Hmode Hload.
  pose proof (load_items_scan v fs root pr index_path st st' its Hmode Hload) as Hscan.
  unfold load_from_scan, sorted_result, scan_items in Hscan.
  destruct (scan_loop _ _ _ _ _ _ _ _) as [st1 [l|e]] eqn:El; simpl in Hscan; [|done].
  injection Hscan as <- <-.
  assert ((scan_loop v fs root pr (rglob fs root) 1 [] st).2 = Ok l) as El2
    by (by rewrite El).
  split.
  - rewrite sort_items_perm. apply scan_loop_length in El2. simpl in El2. lia.
  - apply sort_items_Forall. eapply scan_loop_Forall; [|constructor|exact El2].
    intros path it Hin Hpath.
    apply scan_path_item in Hpath as (rel & c & t & Hext & _ & _ & _ & ->).
    by exists path.
Qed.

(** X4 at a root that holds images, a directory and a text file. *)
Lemma scan_indexes_only_images_witness :
  let H := Sample.runtime [] in
  ∃ its,
    manifest_mode Sample.mixed_case None = false
    ∧ load_items Local Sample.mixed_case Sample.data None None () = ((), Ok its)
    ∧ length its = 4
    ∧ length (rglob Sample.mixed_case Sample.data) = 6
    ∧ length its ≤ length (rglob Sample.mixed_case Sample.data)
    ∧ Forall (λ it, ∃ path, path ∈ rglob Sample.mixed_case Sample.data
                            ∧ Str.lower (suffix path) ∈ IMAGE_EXTS
                            ∧ name it = name_of path) its.
Proof.
  intros H. eexists. split; [reflexivity|]. split; [vm_compute; reflexivity|].
  split; [reflexivity|]. split; [reflexivity|].
  apply (scan_indexes_only_images Local Sample.mixed_case Sample.data None None () ()).
  - reflexivity.
  - vm_compute. reflexivity.
Defined.

(** ** Manifest rows *)

(** X5.  A manifest row that reaches the index is a JSON object, and each
    of the four tag slots of its item is the value the row holds under that
    key, whatever its JSON type, or the empty list when the row has no such
    key. *)
Theorem manifest_row_tags `{Runtime} (v : variant) (fs : filesystem) (root : Path)
    (line : string) (it : Item) :
  manifest_row v fs root line = Ok (Some it) →
  ∃ m, json_loads (Str.strip line) = Ok (JObj m)
       ∧ artist (tags it) = default (JArr []) (m !! "artist")
       ∧ copyright (tags it) = default (JArr []) (m !! "copyright")
       ∧ character (tags it) = default (JArr []) (m !! "character")
       ∧ general (tags it) = default (JArr []) (m !! "general").
Proof.
  intros Hrow.
  apply manifest_row_item in Hrow as (m & p & rel & c & q & Hm & _ & _ & _ & _ & _ & ->).
  by exists m.
Qed.

(** X5 at a row without tag fields. *)
Lemma manifest_row_tags_witness :
  let H := Sample.runtime Sample.caption_docs in
  let fs := Sample.manifest_with_captions "OUTSIDE" in
  let it := {| name := "a.png"; image_url := "/files/a.png"; thumb_url := None;
               display_url := None; caption := "top secret"; tags := empty_tags |} in
  manifest_row Local fs Sample.data "OUTSIDE" = Ok (Some it)
  ∧ ∃ m, json_loads (Str.strip "OUTSIDE") = Ok (JObj m)
         ∧ artist (tags it) = default (JArr []) (m !! "artist")
         ∧ copyright (tags it) = default (JArr []) (m !! "copyright")
         ∧ character (tags it) = default (JArr []) (m !! "character")
         ∧ general (tags it) = default (JArr []) (m !! "general").
Proof.
  intros H fs it. split; [vm_compute; reflexivity|].
  apply (manifest_row_tags Local fs Sample.data "OUTSIDE" it).
  vm_compute. reflexivity.
Defined.

Lemma anchored_empty (root : Path) : anchored root (Path_of "") = root.
Proof. unfold anchored, joinpath. simpl. rewrite app_nil_r. by destruct root. Qed.

(** X6.  A manifest row whose image path passes the checks but which has
    no [caption_path] key (or an empty one) makes the loop raise
    [IsADirectoryError] when the root is a directory: the missing path
    stands for the root itself, which exists and cannot be read as text. *)
Theorem manifest_row_without_caption_path `{Runtime} (v : variant) (fs : filesystem)
    (root : Path) (line : string) (m : gmap string json) (p : string) (rel : Path) :
  Str.strip line ≠ "" →
  json_loads (Str.strip line) = Ok (JObj m) →
  m !! "image_path" = Some (JStr p) →
  safe_relative fs root (anchored root (Path_of p)) = Some rel →
  exists_ fs (anchored root (Path_of p)) = Ok true →
  default (JStr "") (m !! "caption_path") = JStr "" →
  stat fs root = Ok (Some Dir) →
  manifest_row v fs root line = Raise IsADirectoryError.
Proof.
  intros Hne Hm Hp Hrel Hex Hc Hroot. unfold manifest_row.
  rewrite decide_False, Hm by done. simpl. rewrite Hp. simpl. rewrite Hrel, Hex. simpl.
  rewrite Hc. simpl. unfold read_caption, exists_, read_text, read_bytes.
  by rewrite anchored_empty, Hroot.
Qed.

(** X6 at a manifest whose only row names an image and nothing else: the
    build ends with the exception. *)
Lemma manifest_row_without_caption_path_witness :
  let H := Sample.runtime Sample.bare_docs in
  let fs := Sample.manifest_with_captions "BARE" in
  (Str.strip "BARE" ≠ ""
   ∧ json_loads (Str.strip "BARE") = Ok (JObj Sample.bare_row)
   ∧ Sample.bare_row !! "image_path" = Some (JStr "a.png")
   ∧ safe_relative fs Sample.data (anchored Sample.data (Path_of "a.png"))
     = Some (Path_of "a.png")
   ∧ exists_ fs (anchored Sample.data (Path_of "a.png")) = Ok true
   ∧ default (JStr "") (Sample.bare_row !! "caption_path") = JStr ""
   ∧ stat fs Sample.data = Ok (Some Dir))
  ∧ manifest_row Local fs Sample.data "BARE" = Raise IsADirectoryError
  ∧ (load_items Local fs Sample.data None (Some Sample.index) ()).2
    = Raise IsADirectoryError.
Proof.
  intros H fs. split; [|split].
  - vm_compute. repeat split; try reflexivity. discriminate.
  - apply (manifest_row_without_caption_path Local fs Sample.data "BARE" Sample.bare_row
             "a.png" (Path_of "a.png")).
    + vm_compute. discriminate.
    + vm_compute. reflexivity.
    + vm_compute. reflexivity.
    + vm_compute. reflexivity.
    + vm_compute. reflexivity.
    + vm_compute. reflexivity.
    + vm_compute. reflexivity.
  - vm_compute. reflexivity.
Defined.

(** X7.  Lines of the manifest that are blank or that [json.loads]
    refuses leave no trace in the index: the loop returns the same items, or
    raises the same exception, as on the manifest without them. *)
Theorem skipped_lines_leave_no_trace `{Runtime} (v : variant) (fs : filesystem)
    (root : Path) {St1 St2 : Type} (pr1 : option (nat → St1 → St1))
    (pr2 : option (nat → St2 → St2)) (ls : list string) (i j : nat) (acc : list Item)
    (st1 : St1) (st2 : St2) :
  (manifest_loop v fs root pr1 ls i acc st1).2
  = (manifest_loop v fs root pr2 (filter (λ l, skipped_line l = false) ls) j acc st2).2.
Proof.
  revert i j acc st1 st2. induction ls as [|l ls IH]; intros i j acc st1 st2; [done|].
  destruct (skipped_line l) eqn:Hs.
  - rewrite filter_cons_False by (by rewrite Hs). simpl.
    assert (manifest_row v fs root l = Ok None) as ->; [|apply IH].
    unfold skipped_line in Hs. unfold manifest_row.
    destruct (decide (Str.strip l = "")); [done|].
    destruct (json_loads (Str.strip l)) as [row|e]; [done|]. by destruct e.
  - rewrite filter_cons_True by done. simpl.
    destruct (manifest_row v fs root l) as [[it|]|e]; simpl; [apply IH | apply IH | done].
Qed.

(** ** Captions *)

Lemma lstrip_from_head (s : string) (skip : nat) :
  Str.space_prefix (Str.lstrip_from skip s) = None.
Proof.
  revert skip. induction s as [|c s IH]; intros skip; simpl; [apply space_prefix_nil|].
  destruct skip as [|k]; [|apply IH].
  destruct (Str.space_prefix (String c s)) as [r|] eqn:E; [apply IH|done].
Qed.

Lemma lstrip_from_skip (a t : string) :
  Str.lstrip_from (String.length a) (a +:+ t) = Str.lstrip_from 0 t.
Proof.
  induction a as [|c a IH]; [done|]. rewrite string_app_cons. simpl. apply IH.
Qed.

(** White space at the head is dropped, whatever follows. *)
Lemma lstrip_white_space (sp t : string) :
  sp ∈ Str.white_space → Str.lstrip (sp +:+ t) = Str.lstrip t.
Proof.
  intros Hsp. destruct (space_prefix_app sp t Hsp) as [Hne Ht].
  unfold Str.lstrip. destruct sp as [|c sp]; [done|].
  rewrite string_app_cons in *. simpl. rewrite Ht.
  replace (String.length (sp +:+ t) - String.length t) with (String.length sp)
    by (rewrite string_length_app; lia).
  apply lstrip_from_skip.
Qed.

(** What [rstrip] drops is white space. *)
Lemma rstrip_prefix (x : string) : ∃ t, x = Str.rstrip x +:+ t ∧ Str.lstrip t = "".
Proof.
  induction x as [|c x (t & Hx & Ht)]; simpl.
  - by exists "".
  - destruct (decide (Str.lstrip (String c x) = "")) as [He|Hne].
    + by exists (String c x).
    + exists t. rewrite string_app_cons. split; [by rewrite <- Hx|done].
Qed.

Lemma rstrip_no_tail (x a sp : string) :
  sp ∈ Str.white_space → Str.rstrip x ≠ a +:+ sp.
Proof.
  intros Hsp. destruct (space_prefix_app sp "" Hsp) as [Hne _].
  revert a. induction x as [|c x IH]; intros a; simpl.
  - intros Heq. symmetry in Heq. by apply string_app_eq_nil in Heq as [_ ?].
  - destruct (decide (Str.lstrip (String c x) = "")) as [He|Hl].
    { intros Heq. symmetry in Heq. by apply string_app_eq_nil in Heq as [_ ?]. }
    destruct a as [|y a].
    + rewrite string_app_nil_l. intros Heq.
      destruct (rstrip_prefix x) as (t & Hx & Ht). destruct Hl.
      replace (String c x) with (sp +:+ t).
      * by rewrite lstrip_white_space.
      * rewrite <- Heq, string_app_cons. by rewrite <- Hx.
    + rewrite string_app_cons. intros [= _ Heq]. by apply (IH a).
Qed.

Lemma strip_trimmed (s : string) : trimmed (Str.strip s).
Proof.
  unfold trimmed, Str.strip. split; [|intros a sp Hsp; by apply rstrip_no_tail].
  destruct (rstrip_prefix (Str.lstrip s)) as (t & Hx & _).
  apply (space_prefix_less _ t). rewrite <- Hx. apply lstrip_from_head.
Qed.

(** X8.  Whatever the mode, a caption of the index is empty, or it is the
    stripped text of a file that exists; it neither starts nor ends with a
    white-space character, of ASCII or of another script. *)
Theorem index_captions_are_trimmed `{Runtime} (v : variant) (fs : filesystem) (root : Path)
    {St : Type} (pr : option (nat → St → St)) (index_path : option Path) (st st' : St)
    (its : list Item) :
  load_items v fs root pr index_path st = (st', Ok its) →
  Forall (λ it, (caption it = ""
                 ∨ ∃ p text, exists_ fs p = Ok true ∧ read_text fs p = Ok text
                             ∧ caption it = Str.strip text)
                ∧ trimmed (caption it)) its.
Proof.
  assert (Hc : ∀ p c, read_caption fs p = Ok c →
            (c = "" ∨ ∃ p text, exists_ fs p = Ok true ∧ read_text fs p = Ok text
                                ∧ c = Str.strip text)
            ∧ trimmed c).
  { intros p c Hp. apply read_caption_cases in Hp as [[_ ->]|(text & Hex & Ht & ->)].
    - split; [by left|]. apply (strip_trimmed "").
    - split; [right; by exists p, text|]. apply strip_trimmed. }
  apply load_items_Forall.
  - intros line it Hrow.
    apply manifest_row_item in Hrow as (m & p & rel & c & q & _ & _ & _ & _ & _ & Hcap & ->).
    by eapply Hc.
  - intros path it _ Hpath.
    apply scan_path_item in Hpath as (rel & c & t & _ & _ & Hcap & _ & ->).
    by eapply Hc.
Qed.

(** X8 at the scan of a root with one captioned image, whose caption
    file ends with a newline. *)
Lemma index_captions_are_trimmed_witness :
  let H := Sample.runtime Sample.sidecar_docs in
  ∃ its,
    load_items Local Sample.captioned Sample.data None None () = ((), Ok its)
    ∧ caption <$> its = ["a cat outside"]
    ∧ Forall (λ it, (caption it = ""
                     ∨ ∃ p text, exists_ Sample.captioned p = Ok true
                                 ∧ read_text Sample.captioned p = Ok text
                                 ∧ caption it = Str.strip text)
                    ∧ trimmed (caption it)) its.
Proof.
  intros H. eexists. split; [vm_compute; reflexivity|]. split; [reflexivity|].
  apply (index_captions_are_trimmed Local Sample.captioned Sample.data None None () ()).
  vm_compute. reflexivity.
Defined.

(** ** Answers of the Colab handler *)

Section answers.
Context `{Runtime} `{PIL}.
Variables (cfg : Config) (root : Path) (store : ItemStore).

Lemma send_file_cases (path : Path) (seconds : N) (ctype : option string) (w : world) :
  send_file path seconds ctype w
  = (w, match stat (w_fs w) path with
        | Raise e => Raise e
        | Ok None => Ok (send_error 404)
        | Ok (Some (File d)) =>
            Ok (send_200 (default "application/octet-stream"
                            (match ctype with
                             | Some c => Some c
                             | None => guess_type (as_posix path)
                             end))
                  (String.length d) seconds d)
        | Ok (Some Dir) => Raise IsADirectoryError
        | Ok (Some Symlink) => Raise FileNotFoundError
        end).
Proof.
  unfold send_file, mbind, M_bind, the_fs, exists_, read_bytes, mret, M_ret, lift. simpl.
  destruct (stat (w_fs w) path) as [[[d| |]|]|e]; simpl; try done.
Qed.

Lemma do_GET_files (rest : string) :
  do_GET cfg root store ("/files/" +:+ rest) = get_file root rest.
Proof. unfold do_GET. destruct (decide _) as [Heq|_]; [by simpl in Heq|done]. Qed.
End answers.

(** X9.  [send_file] never changes the world.  It answers 404 exactly
    when the existence check says the path does not exist, and raises what
    that check raises; a directory at the path makes it raise
    [IsADirectoryError].  When it answers 200 the body is the whole content
    of the regular file at the path, the announced length is the length of
    that body, the cache lifetime is the one asked for, and a content type
    given by the caller is used as it is. *)
Theorem send_file_answers `{Runtime} (path : Path) (seconds : N) (ctype : option string)
    (w : world) :
  let out := send_file path seconds ctype w in
  out.1 = w
  ∧ (out.2 = Ok (send_error 404) ↔ exists_ (w_fs w) path = Ok false)
  ∧ (∀ e, exists_ (w_fs w) path = Raise e → out.2 = Raise e)
  ∧ (stat (w_fs w) path = Ok (Some Dir) → out.2 = Raise IsADirectoryError)
  ∧ (∀ ct len s body, out.2 = Ok (send_200 ct len s body) →
       stat (w_fs w) path = Ok (Some (File body))
       ∧ len = String.length body ∧ s = seconds
       ∧ ∀ c, ctype = Some c → ct = c).
Proof.
  simpl. rewrite send_file_cases. simpl. split; [done|]. unfold exists_.
  destruct (stat (w_fs w) path) as [[[d| |]|]|e']; simpl.
  - split; [done|]. split; [done|]. split; [done|].
    intros ct len s body [= <- <- <- <-]. repeat (split; [done|]). by intros c ->.
  - repeat (split; [done|]). done.
  - repeat (split; [done|]). done.
  - repeat (split; [done|]). done.
  - split; [done|]. split; [by intros e [= ->]|]. done.
Qed.

(** X10.  A [/files/] request never changes the world and is only ever
    answered from inside the dataset root: a target whose canonical form is
    outside the root gets 403, and a 200 answer carries the content of a
    regular file whose canonical form is the root or below it. *)
Theorem files_request_stays_inside_root `{Runtime} `{PIL} (cfg : Config) (root : Path)
    (store : ItemStore) (rest : string) (w : world) :
  let target := resolve (w_fs w) (root </> Path_of (unquote rest)) in
  let out := do_GET cfg root store ("/files/" +:+ rest) w in
  out.1 = w
  ∧ (out.2 = Ok (send_error 403) ↔ ¬ inside (w_fs w) root target)
  ∧ (∀ ct len s body, out.2 = Ok (send_200 ct len s body) →
       inside (w_fs w) root target
       ∧ stat (w_fs w) target = Ok (Some (File body))
       ∧ fs_stat (w_fs w) target = Some (File body)).
Proof.
  simpl. rewrite do_GET_files. unfold get_file.
  cbv beta iota delta [mbind M_bind the_fs].
  set (target := resolve (w_fs w) (root </> Path_of (unquote rest))).
  destruct (safe_relative (w_fs w) root target) as [rel|] eqn:Erel.
  - assert (inside (w_fs w) root target) as Hin.
    { apply safe_relative_Some in Erel as [_ Hrel]. by exists (parts rel). }
    rewrite send_file_cases. simpl. split; [done|]. split.
    + split; [|done]. destruct (stat (w_fs w) target) as [[[d| |]|]|e]; done.
    + intros ct len s body Hb. split; [done|].
      destruct (stat (w_fs w) target) as [[[d| |]|]|e] eqn:Est; try done.
      injection Hb as _ _ _ ->. split; [done|].
      unfold stat in Est. destruct (fs_fault (w_fs w) target); [done|]. by injection Est.
  - assert (¬ inside (w_fs w) root target) as Hout.
    { intros [k Hk]. assert (safe_relative (w_fs w) root target = Some (mkPath false k)) as Hs
        by (by apply safe_relative_Some). congruence. }
    simpl. split; [done|]. split; [done|]. done.
Qed.

(** X11.  The guards of a derivative request: a URL without the suffix of
    its profile gets 404, a source whose canonical form is outside the root
    gets 403, a source the existence check does not find gets 404, and what
    that check raises is raised; in all four cases the world is left as it
    was, so nothing is opened, encoded or written. *)
Theorem derivative_request_guards `{Runtime} `{PIL} (cfg : Config) (root : Path)
    (store : ItemStore) (k : profile) (rest : string) (w : world) :
  let src := requested_source (w_fs w) root (profile_suffix k) rest in
  let out := do_GET cfg root store (profile_prefix k +:+ rest) w in
  (Str.endswith (unquote rest) (profile_suffix k) = false → out = (w, Ok (send_error 404)))
  ∧ (Str.endswith (unquote rest) (profile_suffix k) = true →
     ¬ inside (w_fs w) root src → out = (w, Ok (send_error 403)))
  ∧ (Str.endswith (unquote rest) (profile_suffix k) = true →
     inside (w_fs w) root src → exists_ (w_fs w) src = Ok false →
     out = (w, Ok (send_error 404)))
  ∧ (∀ e, Str.endswith (unquote rest) (profile_suffix k) = true →
     inside (w_fs w) root src → exists_ (w_fs w) src = Raise e →
     out = (w, Raise e)).
Proof.
  assert (Hsafe : ∀ p, ¬ inside (w_fs w) root p → safe_relative (w_fs w) root p = None).
  { intros p Hout. destruct (safe_relative (w_fs w) root p) as [rel|] eqn:E; [|done].
    destruct Hout. apply safe_relative_Some in E as [_ E]. by exists (parts rel). }
  assert (Hin : ∀ p, inside (w_fs w) root p → is_Some (safe_relative (w_fs w) root p)).
  { intros p [r Hr]. exists (mkPath false r). by apply safe_relative_Some. }
  destruct k; simpl; unfold requested_source, profile_suffix.
  - rewrite do_GET_thumbs. unfold get_thumb. split; [|split; [|split]].
    + by intros ->.
    + intros -> Hout. cbv beta iota delta [negb mbind M_bind the_fs]. by rewrite Hsafe.
    + intros -> [rel Hrel]%Hin Hex. cbv beta iota delta [negb mbind M_bind the_fs lift].
      by rewrite Hrel, Hex.
    + intros e -> [rel Hrel]%Hin Hex. cbv beta iota delta [negb mbind M_bind the_fs lift].
      by rewrite Hrel, Hex.
  - rewrite do_GET_display. unfold get_display. split; [|split; [|split]].
    + by intros ->.
    + intros -> Hout. cbv beta iota delta [negb mbind M_bind the_fs]. by rewrite Hsafe.
    + intros -> [rel Hrel]%Hin Hex. cbv beta iota delta [negb mbind M_bind the_fs lift].
      by rewrite Hrel, Hex.
    + intros e -> [rel Hrel]%Hin Hex. cbv beta iota delta [negb mbind M_bind the_fs lift].
      by rewrite Hrel, Hex.
Qed.

(** X11 at requests on the sample root: a URL without the suffix, a
    source outside the root, a source that is missing, and a source whose
    name the system refuses. *)
Example derivative_request_guards_sample :
  let R := Sample.runtime [] in
  let P := Sample.pil (Saved "JPEG") in
  let w := Sample.start Sample.with_long_name in
  do_GET default_config Sample.data new_store "/thumbs/a.png" w = (w, Ok (send_error 404))
  ∧ do_GET default_config Sample.data new_store "/thumbs/../x.png.thumb.jpg" w
    = (w, Ok (send_error 403))
  ∧ do_GET default_config Sample.data new_store "/display/none.png.display.jpg" w
    = (w, Ok (send_error 404))
  ∧ do_GET default_config Sample.data new_store
      ("/thumbs/" +:+ Sample.long_name +:+ "aaaaaa.thumb.jpg") w
    = (w, Raise OSError).
Proof. vm_compute. done. Qed.

(** Requests that try to leave the root of [/data]. *)
Example traversal_is_forbidden :
  let R := Sample.runtime [] in
  let P := Sample.pil (Saved "JPEG") in
  let fs := Sample.manifest_with_captions "" in
  let w := Sample.start fs in
  do_GET default_config Sample.data new_store "/files/../secret.txt" w
  = (w, Ok (send_error 403))
  ∧ do_GET default_config Sample.data new_store "/files//secret.txt" w
    = (w, Ok (send_error 403))
  ∧ do_GET default_config Sample.data new_store "/thumbs/../secret.txt.thumb.jpg" w
    = (w, Ok (send_error 403))
  ∧ do_GET default_config Sample.data new_store "/files/missing.png" w
    = (w, Ok (send_error 404))
  ∧ do_GET default_config Sample.data new_store "/files/a.png" w
    = (w, Ok (send_200 "application/octet-stream" 3 3600 "PNG")).
Proof. vm_compute. done. Qed.

(** ** What readers of the store can see *)

Lemma states_assign (f : ItemStore → ItemStore) (tl : timeline) :
  states (assign f tl) = states tl ++ [f (now tl)].
Proof. done. Qed.

Lemma unpublished_now (tl : timeline) :
  unpublished tl → ready (now tl) = false ∧ items (now tl) = [].
Proof.
  unfold unpublished, states. intros Hu. apply Forall_app in Hu as [_ Hu].
  by apply Forall_inv in Hu.
Qed.

Lemma unpublished_report (idx : nat) (tl : timeline) :
  unpublished tl → unpublished (report (Some progress) idx tl).
Proof.
  intros Hu. unfold report. destruct (idx mod 500 =? 0); [|done].
  unfold progress, unpublished. rewrite states_assign. apply Forall_app. split; [done|].
  constructor; [|done]. simpl. by apply unpublished_now.
Qed.

Section unpublished_loops.
Context `{Runtime}.
Variables (fs : filesystem) (root : Path).

Lemma scan_loop_unpublished paths idx acc tl :
  unpublished tl → unpublished (scan_loop Colab fs root (Some progress) paths idx acc tl).1.
Proof.
  revert idx acc tl. induction paths as [|p paths IH]; intros idx acc tl Hu; simpl; [done|].
  destruct (scan_path Colab fs root p) as [[it|]|e]; simpl; [|by apply IH|done].
  apply IH. by apply unpublished_report.
Qed.

Lemma manifest_loop_unpublished ls idx acc tl :
  unpublished tl →
  unpublished (manifest_loop Colab fs root (Some progress) ls idx acc tl).1.
Proof.
  revert idx acc tl. induction ls as [|l ls IH]; intros idx acc tl Hu; simpl; [done|].
  destruct (manifest_row Colab fs root l) as [[it|]|e]; simpl; [|by apply IH|done].
  apply IH. by apply unpublished_report.
Qed.

Lemma load_items_unpublished index_path tl :
  unpublished tl → unpublished (load_items Colab fs root (Some progress) index_path tl).1.
Proof.
  intros Hu. unfold load_items, load_from_manifest, load_from_scan, sorted_result,
    scan_items.
  pose proof (scan_loop_unpublished (rglob fs root) 1 [] tl Hu) as Hscan.
  destruct index_path as [p|]; [|exact Hscan].
  destruct (exists_ fs p) as [[]|e]; [|exact Hscan|done].
  fold (load_from_manifest Colab fs root (Some progress) p tl). unfold load_from_manifest,
    sorted_result. simpl.
  rewrite manifest_items_state.
  destruct (read_bytes fs p) as [data|e]; simpl; [|done].
  by apply manifest_loop_unpublished.
Qed.
End unpublished_loops.

(** X12.  A reader of the store never sees part of an index.  In every
    state the store goes through during a build started on a fresh store,
    the items a request for [/api/items] is given (the items of the store
    when it is ready, none otherwise) are either none, or the whole final
    index, sorted; the latter only once the build has ended with [ready]
    set. *)
Theorem readers_see_nothing_or_the_whole_index `{Runtime} `{PIL} `{Glob} (cfg : Config)
    (prebuild : bool) (root : Path) (index_path : option Path) (w : world) :
  let tl := (build_items cfg prebuild root index_path w fresh).2 in
  (∀ s w', do_GET cfg root s "/api/items" w'
           = (w', Ok (send_json (as_posix root) (ready s) (scanned s) (visible_items s))))
  ∧ Forall (λ s, visible_items s = []
                 ∨ (ready (now tl) = true
                    ∧ visible_items s = items (now tl)
                    ∧ StronglySorted key_le (items (now tl))))
      (states tl).
Proof.
  split; [done|].
  assert (Hfresh : unpublished fresh) by (repeat constructor).
  assert (Hnone : ∀ tl (Q : ItemStore → Prop), unpublished tl →
            Forall (λ s, visible_items s = [] ∨ Q s) (states tl)).
  { intros tl Q Hu. eapply Forall_impl; [exact Hu|].
    intros s [Hr _]. left. unfold visible_items. by rewrite Hr. }
  unfold build_items.
  destruct (if prebuild then prebuild_cache cfg root w else (w, Ok None))
    as [w1 [counts|e]]; simpl; [|by apply Hnone].
  pose proof (load_items_unpublished (w_fs w1) root index_path fresh Hfresh) as Hu.
  pose proof (load_items_sorted Colab (w_fs w1) root (Some progress) index_path fresh) as Hs.
  destruct (load_items Colab (w_fs w1) root (Some progress) index_path fresh)
    as [tl [its|e]]; simpl in *; [|by apply Hnone].
  unfold set_ready, set_items. rewrite !states_assign. simpl.
  apply Forall_app. split; [apply Forall_app; split|].
  - by apply Hnone.
  - constructor; [|done]. left. unfold visible_items; simpl.
    by rewrite (proj1 (unpublished_now tl Hu)).
  - constructor; [|done]. right. unfold visible_items; simpl. split; [done|]. split; [done|].
    by apply Hs.
Qed.

(** ** The prebuild pass *)




Section prebuild.
Context `{Runtime} `{PIL} `{Glob}.
Variable cfg : Config.



End prebuild.


(** A prebuild pass over a root with one image.  When the enumeration
    lists everything at the start, the pass makes the two derivatives of
    the image.  When it lists a directory on reaching it, it finds the
    cache directories it has just filled: stopped after three directories,
    it has taken three files for images and made six. *)
Example prebuild_cache_sample :
  let R := Sample.runtime [] in
  let P := Sample.pil (Saved "JPEG") in
  let w := Sample.start Sample.one_image in
  (prebuild_cache (H1 := Sample.at_once) default_config Sample.data w).2 = Ok (Some (1, 2))
  ∧ (prebuild_cache (H1 := Sample.listing 1) default_config Sample.data w).2
    = Ok (Some (1, 2))
  ∧ (prebuild_cache (H1 := Sample.listing 3) default_config Sample.data w).2
    = Ok (Some (3, 6)).
Proof. vm_compute. done. Qed.

(** ** Start-up *)

(** X14.  The sizes and qualities [main] stores are always within their
    bounds, whatever integers the command line gives: a thumbnail size of at
    least 128, a display size of at least 640, qualities between 40 and 95.
    Values within the bounds are kept, and the defaults of the command line
    give the defaults of the module. *)
Theorem main_config_bounds (thumb_size display_size thumb_quality display_quality : Z) :
  let cfg := main_config thumb_size display_size thumb_quality display_quality in
  (128 ≤ THUMB_SIZE cfg ∧ 640 ≤ DISPLAY_SIZE cfg
   ∧ 40 ≤ THUMB_QUALITY cfg ≤ 95 ∧ 40 ≤ DISPLAY_QUALITY cfg ≤ 95)
  ∧ ((128 ≤ thumb_size)%Z → Z.of_nat (THUMB_SIZE cfg) = thumb_size)
  ∧ ((640 ≤ display_size)%Z → Z.of_nat (DISPLAY_SIZE cfg) = display_size)
  ∧ ((40 ≤ thumb_quality ≤ 95)%Z → Z.of_nat (THUMB_QUALITY cfg) = thumb_quality)
  ∧ ((40 ≤ display_quality ≤ 95)%Z → Z.of_nat (DISPLAY_QUALITY cfg) = display_quality)
  ∧ main_config 360 1600 82 88 = default_config.
Proof.
  simpl. repeat split; try lia.
Qed.

Lemma if_exists_Some (fs : filesystem) (p q : Path) :
  if_exists fs p = Ok (Some q) → q = p ∧ exists_ fs p = Ok true.
Proof.
  unfold if_exists. destruct (exists_ fs p) as [[]|e]; simpl; [|done..]. by intros [= <-].
Qed.

Lemma if_exists_Raise (fs : filesystem) (p : Path) (e : exn) :
  if_exists fs p = Raise e → exists_ fs p = Raise e.
Proof. unfold if_exists. destruct (exists_ fs p) as [[]|e']; simpl; congruence. Qed.

(** X15.  The manifest [main] settles on always exists, so [load_items]
    runs in manifest mode exactly when one was found; an [--index] that is
    given and exists is taken before any default; and the Colab server finds
    every manifest the local server finds, looking beside the root only when
    nothing else was found.  The search raises only what an existence check
    raised. *)
Theorem find_index_exists (v : variant) (fs : filesystem) (root : Path)
    (index : option string) :
  (∀ p, find_index v fs root index = Ok (Some p) → exists_ fs p = Ok true)
  ∧ (∀ o, find_index v fs root index = Ok o →
          manifest_mode fs o = bool_decide (is_Some o))
  ∧ (∀ s, index = Some s → s ≠ "" → exists_ fs (resolve fs (Path_of s)) = Ok true →
          find_index v fs root index = Ok (Some (resolve fs (Path_of s))))
  ∧ (∀ p, find_index Local fs root index = Ok (Some p) →
          find_index Colab fs root index = Ok (Some p))
  ∧ (find_index Local fs root index = Ok None →
     find_index Colab fs root index
     = match exists_ fs (parent root </> Path_of default_index_name) with
       | Ok true => Ok (Some (parent root </> Path_of default_index_name))
       | Ok false => Ok None
       | Raise e => Raise e
       end)
  ∧ (∀ e, find_index v fs root index = Raise e → ∃ p, exists_ fs p = Raise e).
Proof.
  assert (Hex : ∀ p, find_index v fs root index = Ok (Some p) → exists_ fs p = Ok true).
  { unfold find_index, if_exists. intros p Hp.
    destruct index as [s|]; [destruct (decide (s = ""))|]; simpl in Hp.
    all: repeat match type of Hp with
         | context [exists_ ?f ?q] =>
             revert Hp; destruct (exists_ f q) as [[]|?] eqn:?; simpl; intros Hp
         end.
    all: destruct v; by simplify_eq. }
  split; [done|]. split; [|split; [|split; [|split]]].
  - intros [p|] Ho; simpl; [|done]. by rewrite (Hex p Ho).
  - intros s -> Hne Hs. unfold find_index, if_exists. rewrite decide_False by done.
    rewrite Hs. simpl. by destruct v.
  - unfold find_index. intros p.
    destruct (match _ with Some p0 => if_exists fs p0 | None => Ok None end)
      as [[q|]|e]; simpl; [done| |done].
    by destruct (if_exists fs (root </> Path_of default_index_name)) as [[q|]|e].
  - unfold find_index.
    destruct (match _ with Some p0 => if_exists fs p0 | None => Ok None end)
      as [[q|]|e]; simpl; [done| |done].
    destruct (if_exists fs (root </> Path_of default_index_name)) as [[q|]|e];
      simpl; [done| |done].
    intros _. unfold if_exists. by destruct (exists_ _ _) as [[]|].
  - unfold find_index, if_exists. intros e He.
    destruct index as [s|]; [destruct (decide (s = ""))|]; simpl in He.
    all: repeat match type of He with
         | context [exists_ ?f ?q] =>
             revert He; destruct (exists_ f q) as [[]|?] eqn:?; simpl; intros He
         end.
    all: destruct v; simplify_eq; by eexists.
Qed.

(** The search on the sample root, with and without [--index]. *)
Example find_index_sample :
  let fs := Sample.manifest_with_captions "" in
  find_index Colab fs Sample.data (Some "/data/index.jsonl") = Ok (Some Sample.index)
  ∧ find_index Colab fs Sample.data None = Ok None
  ∧ find_index Local fs (Path_of "/data/sub") None = Ok None
  ∧ find_index Colab fs (Path_of "/data/sub") (Some "/none.jsonl") = Ok None
  ∧ find_index Colab Sample.with_long_name Sample.data
      (Some ("/data/" +:+ Sample.long_name +:+ "aaaaaa.jsonl"))
    = Raise OSError.
Proof. vm_compute. done. Qed.

(** ** The two handlers *)

Lemma local_do_GET_files `{Runtime} (root : Path) (its : list Item) (rest : string)
    (fs : filesystem) :
  local_do_GET root its ("/files/" +:+ rest) fs
  = match safe_relative fs root (resolve fs (root </> Path_of (unquote rest))) with
    | None => Ok (local_error 403)
    | Some _ =>
        match stat fs (resolve fs (root </> Path_of (unquote rest))) with
        | Raise e => Raise e
        | Ok None => Ok (local_error 404)
        | Ok (Some (File data)) =>
            Ok (local_200
                  (default "application/octet-stream"
                     (guess_type (as_posix (resolve fs (root </> Path_of (unquote rest))))))
                  (String.length data) data)
        | Ok (Some Dir) => Raise IsADirectoryError
        | Ok (Some Symlink) => Raise FileNotFoundError
        end
    end.
Proof.
  unfold local_do_GET. destruct (decide _) as [Heq|_]; [by simpl in Heq|].
  simpl Str.strip_prefix. cbv beta iota.
  destruct (safe_relative _ _ _); [|done]. unfold exists_, read_bytes.
  destruct (stat _ _) as [[[d| |]|]|e]; simpl; done.
Qed.

(** X16.  The two servers answer a [/files/] request alike: the same
    status, content type, length and body, and the same exception on a
    directory; the Colab server only adds the cache lifetime.  So the local
    server too answers only from inside the root. *)
Theorem local_files_request_agrees `{Runtime} `{PIL} (cfg : Config) (root : Path)
    (store : ItemStore) (its : list Item) (rest : string) (w : world) :
  let target := resolve (w_fs w) (root </> Path_of (unquote rest)) in
  Some <$> local_do_GET root its ("/files/" +:+ rest) (w_fs w)
  = without_lifetime <$> (do_GET cfg root store ("/files/" +:+ rest) w).2
  ∧ (∀ ct len body,
       local_do_GET root its ("/files/" +:+ rest) (w_fs w) = Ok (local_200 ct len body) →
       inside (w_fs w) root target
       ∧ stat (w_fs w) target = Ok (Some (File body))
       ∧ fs_stat (w_fs w) target = Some (File body)).
Proof.
  simpl. rewrite local_do_GET_files, do_GET_files. unfold get_file.
  cbv beta iota delta [mbind M_bind the_fs].
  set (target := resolve (w_fs w) (root </> Path_of (unquote rest))).
  destruct (safe_relative (w_fs w) root target) as [rel|] eqn:Erel; [|done].
  rewrite send_file_cases. simpl.
  destruct (stat (w_fs w) target) as [[[d| |]|]|e] eqn:Est; simpl;
    (split; [done|]); try done.
  intros ct len body [= <- <- <-]. split; [|split; [done|]].
  - apply safe_relative_Some in Erel as [_ Hrel]. by exists (parts rel).
  - unfold stat in Est. destruct (fs_fault (w_fs w) target); [done|]. by injection Est.
Qed.

(** ** Paths and URLs *)

Lemma split_on_no_sep (sep : ascii) (w : string) :
  has_char sep w = false → Str.split_on sep w = [w].
Proof.
  induction w as [|c w IH]; simpl; [done|]. intros Hc.
  apply orb_false_iff in Hc as [Hc Hw]. apply bool_decide_eq_false in Hc.
  rewrite decide_False by done. by rewrite IH.
Qed.

Lemma split_on_app_sep (sep : ascii) (w s : string) :
  has_char sep w = false →
  Str.split_on sep (w +:+ String sep s) = w :: Str.split_on sep s.
Proof.
  induction w as [|c w IH]; simpl.
  - intros _. by rewrite decide_True.
  - intros Hc. apply orb_false_iff in Hc as [Hc Hw]. apply bool_decide_eq_false in Hc.
    rewrite decide_False by done. by rewrite IH.
Qed.

Lemma split_on_join (ws : list string) :
  ws ≠ [] → Forall component ws → Str.split_on "/" (Str.join "/" ws) = ws.
Proof.
  induction ws as [|w ws IH]; [done|]. intros _ Hc.
  apply Forall_cons in Hc as [(_ & _ & Hw) Hws].
  destruct ws as [|w2 ws]; [by apply split_on_no_sep|].
  change (Str.join "/" (w :: w2 :: ws)) with (w +:+ String "/" (Str.join "/" (w2 :: ws))).
  rewrite split_on_app_sep by done. by rewrite IH.
Qed.

Lemma filter_components (ws : list string) :
  Forall component ws → filter (λ w, w ≠ "" ∧ w ≠ ".") ws = ws.
Proof.
  induction 1 as [|w ws (? & ? & _) _ IH]; [done|].
  by rewrite filter_cons_True, IH.
Qed.

Lemma join_head (w : string) (ws : list string) :
  ∃ r, Str.join "/" (w :: ws) = w +:+ r.
Proof.
  destruct ws as [|w2 ws]; simpl.
  - exists "". clear. induction w as [|c w IH]; [done|].
    change (String c w +:+ "") with (String c (w +:+ "")). by f_equal.
  - by eexists.
Qed.

(** [Path(str(p))] is [p] for a path made of proper components. *)
Lemma Path_of_as_posix (p : Path) : Forall component (parts p) → Path_of (as_posix p) = p.
Proof.
  destruct p as [[] ws]; unfold as_posix, Path_of; simpl; intros Hc.
  - destruct ws as [|w ws]; [done|]. f_equal.
    change ("" +:+ Str.join "/" (w :: ws)) with (Str.join "/" (w :: ws)).
    rewrite filter_cons_False by (by intros [? _]).
    rewrite split_on_join by done. by apply filter_components.
  - destruct ws as [|w ws]; [done|].
    rewrite split_on_join by done. rewrite filter_components by done. f_equal.
    destruct (join_head w ws) as [r ->].
    apply Forall_cons in Hc as [(Hne & _ & Hw) _].
    destruct w as [|c w]; [done|]. simpl in *.
    apply orb_false_iff in Hw as [Hc _]. apply bool_decide_eq_false in Hc.
    unfold Str.startswith. simpl. rewrite decide_False by done.
    apply bool_decide_eq_false. by intros [? ?].
Qed.

Lemma strip_prefix_app (p s : string) : Str.strip_prefix p (p +:+ s) = Some s.
Proof. induction p as [|c p IH]; simpl; [done|]. by rewrite decide_True. Qed.

Lemma substring_all (s : string) : String.substring 0 (String.length s) s = s.
Proof. induction s as [|c s IH]; simpl; [done|]. by rewrite IH. Qed.

Lemma substring_front (s x : string) :
  String.substring 0 (String.length s) (s +:+ x) = s.
Proof.
  induction s as [|c s IH]; simpl; [by destruct x|]. by rewrite IH.
Qed.

Lemma endswith_app (s x : string) : Str.endswith (s +:+ x) x = true.
Proof.
  unfold Str.endswith. rewrite string_length_app.
  replace (String.length s + String.length x - String.length x) with (String.length s + 0)
    by lia.
  rewrite substring_skip, substring_all.
  apply andb_true_iff. split; [apply Nat.leb_le; lia | by apply bool_decide_eq_true].
Qed.

Lemma drop_last_app (s x : string) : Str.drop_last (String.length x) (s +:+ x) = s.
Proof.
  unfold Str.drop_last. rewrite string_length_app.
  replace (String.length s + String.length x - String.length x) with (String.length s) by lia.
  apply substring_front.
Qed.

(** X17.  The URLs of an item lead back to what they were made from.  If
    [unquote] undoes [quote], then for a path [rel] of proper components the
    handler recovers from the file URL the path [root / rel], and from the
    thumbnail or display URL a name with the right suffix, the cache name
    [rel] (so it looks up the very cache path the prebuild pass fills) and
    the source [root / rel]. *)
Theorem item_urls_lead_back `{Runtime} (fs : filesystem) (root rel : Path) :
  (∀ s, unquote (quote s) = s) →
  Forall component (parts rel) →
  (∃ rest, Str.strip_prefix "/files/" (to_file_url rel) = Some rest
           ∧ Path_of (unquote rest) = rel)
  ∧ ∀ k, ∃ rest,
      Str.strip_prefix (profile_prefix k) (profile_url k rel) = Some rest
      ∧ Str.endswith (unquote rest) (profile_suffix k) = true
      ∧ requested_name (profile_suffix k) rest = rel
      ∧ requested_source fs root (profile_suffix k) rest = resolve fs (root </> rel).
Proof.
  intros Hq Hc. split.
  - exists (quote (as_posix rel)). unfold to_file_url. rewrite strip_prefix_app.
    split; [done|]. rewrite Hq. by apply Path_of_as_posix.
  - intros k. exists (quote (as_posix rel +:+ profile_suffix k)).
    assert (Str.strip_prefix (profile_prefix k) (profile_url k rel)
            = Some (quote (as_posix rel +:+ profile_suffix k))) as ->.
    { destruct k; unfold profile_url, to_thumb_url, to_display_url, profile_prefix;
        apply strip_prefix_app. }
    unfold requested_name, requested_source. rewrite Hq, endswith_app, drop_last_app.
    by rewrite Path_of_as_posix.
Qed.

(** X17 at the path [sub/a.png], with URLs that need no escaping. *)
Lemma item_urls_lead_back_witness :
  let H := Sample.runtime [] in
  let rel := Path_of "sub/a.png" in
  to_thumb_url rel = "/thumbs/sub/a.png.thumb.jpg"
  ∧ (∃ rest, Str.strip_prefix "/files/" (to_file_url rel) = Some rest
             ∧ Path_of (unquote rest) = rel)
  ∧ ∀ k, ∃ rest,
      Str.strip_prefix (profile_prefix k) (profile_url k rel) = Some rest
      ∧ Str.endswith (unquote rest) (profile_suffix k) = true
      ∧ requested_name (profile_suffix k) rest = rel
      ∧ requested_source Sample.one_image Sample.data (profile_suffix k) rest
        = resolve Sample.one_image (Sample.data </> rel).
Proof.
  intros H rel. split; [reflexivity|].
  apply (item_urls_lead_back Sample.one_image Sample.data rel).
  - intros s. reflexivity.
  - repeat constructor; vm_compute; discriminate.
Defined.

Lemma string_app_inv_tail (a b t : string) : a +:+ t = b +:+ t → a = b.
Proof.
  intros Heq. assert (String.length a = String.length b) as Hl.
  { apply (f_equal String.length) in Heq. rewrite !string_length_app in Heq. lia. }
  rewrite <- (substring_front a t), Heq, Hl. apply substring_front.
Qed.

(** The components of [Path(rel.as_posix() + suffix)]: those of [rel]
    with the suffix on the last one, or the suffixed dot for the empty
    path. *)
Lemma suffixed_parts (rel : Path) (t : string) :
  is_absolute rel = false → Forall component (parts rel) →
  Str.split_on "/" t = [t] → 2 ≤ String.length t →
  is_absolute (Path_of (as_posix rel +:+ t)) = false
  ∧ ∃ ws w, parts (Path_of (as_posix rel +:+ t)) = ws ++ [w +:+ t]
            ∧ (parts rel = ws ++ [w] ∨ (parts rel = [] ∧ ws = [] ∧ w = ".")).
Proof.
  intros Habs Hc Ht Hlen.
  pose proof (Path_of_as_posix rel Hc) as Hround.
  split.
  - apply (f_equal is_absolute) in Hround. rewrite Habs in Hround.
    unfold Path_of in *. simpl in *. unfold Str.startswith in *.
    apply bool_decide_eq_false in Hround. apply bool_decide_eq_false. intros [x Hx].
    destruct Hround. destruct (as_posix rel) as [|c s] eqn:E.
    + unfold as_posix in E. rewrite Habs in E. destruct (parts rel) as [|w ws] eqn:Ep; [done|].
      destruct (join_head w ws) as [r Hr]. rewrite Hr in E.
      apply Forall_cons in Hc as [(Hne & _) _]. by destruct w.
    + simpl in *. destruct (decide ("/"%char = c)); [by eexists|done].
  - destruct (split_on_app_last "/" (as_posix rel) t Ht) as (ws & w & Hs & Hst).
    exists ws, w.
    assert (2 ≤ String.length (w +:+ t)) as Hl by (rewrite string_length_app; lia).
    assert (w +:+ t ≠ "" ∧ w +:+ t ≠ ".") as Hwt.
    { split; intros Heq; rewrite Heq in Hl; simpl in Hl; lia. }
    unfold Path_of at 1. cbn [parts]. rewrite Hst, filter_app.
    rewrite (filter_cons_True _ (w +:+ t)), filter_nil by done.
    unfold as_posix in Hs. rewrite Habs in Hs.
    destruct (parts rel) as [|w0 ws0] eqn:Ep.
    + vm_compute in Hs. destruct ws as [|? [|? ?]]; simplify_eq. split; [done|]. by right.
    + rewrite split_on_join in Hs by done. rewrite Hs in Hc.
      apply Forall_app in Hc as [Hws _]. rewrite filter_components by done.
      split; [done|]. by left.
Qed.

Lemma profile_path_parts (k : profile) (root rel : Path) :
  is_absolute rel = false → Forall component (parts rel) →
  ∃ ws w,
    profile_path k root rel
    = {| is_absolute := is_absolute root;
         parts := parts root
                  ++ [match k with Thumb => ".thumbs" | Display => ".display" end]
                  ++ ws ++ [w +:+ profile_suffix k] |}
    ∧ (parts rel = ws ++ [w] ∨ (parts rel = [] ∧ ws = [] ∧ w = ".")).
Proof.
  intros Habs Hc.
  destruct (suffixed_parts rel (profile_suffix k) Habs Hc) as (Hrel & ws & w & Hp & Hcase).
  { by destruct k. }
  { destruct k; simpl; lia. }
  exists ws, w. split; [|done].
  destruct k; unfold profile_path, make_thumb_path, make_display_path, profile_suffix in *.
  - change (Path_of ".thumbs") with (mkPath false [".thumbs"]).
    destruct (Path_of (as_posix rel +:+ THUMB_SUFFIX)) as [a ps]; simpl in *; subst a ps.
    unfold joinpath; simpl. by rewrite <- app_assoc.
  - change (Path_of ".display") with (mkPath false [".display"]).
    destruct (Path_of (as_posix rel +:+ DISPLAY_SUFFIX)) as [a ps]; simpl in *; subst a ps.
    unfold joinpath; simpl. by rewrite <- app_assoc.
Qed.

(** X18.  Cache paths do not collide: for sandbox-relative paths of
    proper components, the thumbnail and the display path of an image are
    different, and two images share a cache path only if they are the same
    path. *)
Theorem cache_paths_do_not_collide (root rel1 rel2 : Path) (k1 k2 : profile) :
  is_absolute rel1 = false → Forall component (parts rel1) →
  is_absolute rel2 = false → Forall component (parts rel2) →
  profile_path k1 root rel1 = profile_path k2 root rel2 →
  k1 = k2 ∧ rel1 = rel2.
Proof.
  intros Ha1 Hc1 Ha2 Hc2 Heq.
  destruct (profile_path_parts k1 root rel1 Ha1 Hc1) as (ws1 & w1 & E1 & Hcase1).
  destruct (profile_path_parts k2 root rel2 Ha2 Hc2) as (ws2 & w2 & E2 & Hcase2).
  rewrite E1, E2 in Heq. injection Heq as Heq. apply app_inv_head in Heq.
  assert (k1 = k2) as <- by (destruct k1, k2; simplify_eq; done).
  split; [done|]. apply (app_inv_head [_]) in Heq.
  apply app_inj_tail in Heq as [<- Hw]. apply string_app_inv_tail in Hw as <-.
  destruct rel1 as [a1 p1], rel2 as [a2 p2]; simpl in *; subst a1 a2. f_equal.
  destruct Hcase1 as [->|(-> & -> & ->)], Hcase2 as [->|(-> & Hws & Hdot)]; try done.
  - subst. apply Forall_app in Hc1 as [_ Hc1]. apply Forall_inv in Hc1 as (_ & Hd & _). done.
  - apply Forall_inv in Hc2 as (_ & Hd & _). done.
Qed.

(** X18 at the thumbnail of [sub/a.png]. *)
Lemma cache_paths_do_not_collide_witness :
  let rel := Path_of "sub/a.png" in
  profile_path Thumb Sample.data rel = Path_of "/data/.thumbs/sub/a.png.thumb.jpg"
  ∧ profile_path Display Sample.data rel = Path_of "/data/.display/sub/a.png.display.jpg"
  ∧ Thumb = Thumb ∧ rel = rel.
Proof.
  intros rel. split; [reflexivity|]. split; [reflexivity|].
  apply (cache_paths_do_not_collide Sample.data rel rel Thumb Thumb).
  - reflexivity.
  - repeat constructor; vm_compute; discriminate.
  - reflexivity.
  - repeat constructor; vm_compute; discriminate.
  - reflexivity.
Defined.

(** ** What a call of [build_resized] leaves *)

(** X19.  When [build_resized] returns [True], Pillow is available, the
    target did not exist before, the source was opened once and the target
    saved once, in that order, and the target now holds exactly the bytes
    the encoder produced for a JPEG of the requested quality with
    optimisation on. *)
Theorem build_resized_success `{PIL} (s t : Path) (max_size quality : nat) (w w' : world) :
  build_resized s t max_size quality w = (w', Ok true) →
  PIL_AVAILABLE = true
  ∧ exists_ (w_fs w) t = Ok false
  ∧ w_log w' = w_log w ++ [EvOpen s; EvSave t]
  ∧ ∃ img d, image_save img "JPEG" quality true = Saved d
             ∧ stat (w_fs w') t = Ok (Some (File d))
             ∧ fs_stat (w_fs w') t = Some (File d).
Proof.
  intros Hrun.
  apply build_resized_true in Hrun
    as (Hex & Hpil & Hlog & fs1 & img & d & Hd & Hsave & Hw & ->).
  repeat (split; [done|]). exists img, d. split; [done|].
  assert (fs_stat (fs_write fs1 t d) t = Some (File d)) as Hst
    by (unfold fs_write; by rewrite (fs_stat_written fs1 t _ d Hw)).
  split; [|done]. unfold stat. simpl. rewrite (proj1 (proj2 Hd)).
  unfold exists_, stat in Hex. destruct (fs_fault (w_fs w) t); [done|]. by rewrite Hst.
Qed.

(** X19 at the thumbnail of [/data/a.png]. *)
Lemma build_resized_success_witness :
  let H := Sample.pil (Saved "JPEG") in
  let t := make_thumb_path Sample.data (Path_of "a.png") in
  let w := Sample.start Sample.one_image in
  let w' := (build_resized Sample.a_png t 360 82 w).1 in
  build_resized Sample.a_png t 360 82 w = (w', Ok true)
  ∧ PIL_AVAILABLE = true
  ∧ exists_ (w_fs w) t = Ok false
  ∧ w_log w' = w_log w ++ [EvOpen Sample.a_png; EvSave t]
  ∧ ∃ img d, image_save img "JPEG" 82 true = Saved d
             ∧ stat (w_fs w') t = Ok (Some (File d))
             ∧ fs_stat (w_fs w') t = Some (File d).
Proof.
  intros H t w w'. split; [vm_compute; reflexivity|].
  apply (build_resized_success Sample.a_png t 360 82 w w').
  vm_compute. reflexivity.
Defined.

Lemma dirs_added_file (fs fs1 : filesystem) (q : list string) (d : string) :
  dirs_added fs fs1 → assoc q (fs_entries fs1) = Some (File d) →
  assoc q (fs_entries fs) = Some (File d).
Proof.
  intros (_ & _ & Hq & _) Hf. destruct (Hq q) as [Heq|[_ Hdir]]; congruence.
Qed.

(** X20.  [build_resized] raises exactly what the existence check of the
    target raises, and then leaves the world as it was; so it does not
    raise when that check answers.  When the target exists, or Pillow is
    missing, it returns [False] and leaves the world as it was.  It never
    changes how paths resolve.  After a [False], no location of the file
    system holds a regular file that held none before: an attempt that
    failed leaves at most directories behind. *)
Theorem build_resized_outcomes `{PIL} (s t : Path) (max_size quality : nat) (w : world) :
  let out := build_resized s t max_size quality w in
  (∀ e, out.2 = Raise e ↔ exists_ (w_fs w) t = Raise e)
  ∧ (∀ e, out.2 = Raise e → out.1 = w)
  ∧ (exists_ (w_fs w) t = Ok true
     ∨ (exists_ (w_fs w) t = Ok false ∧ PIL_AVAILABLE = false) →
     out = (w, Ok false))
  ∧ fs_resolve (w_fs out.1) = fs_resolve (w_fs w)
  ∧ (out.2 = Ok false →
     ∀ q d, assoc q (fs_entries (w_fs out.1)) = Some (File d) →
            ∃ d0, assoc q (fs_entries (w_fs w)) = Some (File d0)).
Proof.
  simpl. destruct (build_resized s t max_size quality w) as [w' r] eqn:Hrun. simpl.
  pose proof (build_resized_keeps _ _ _ _ _ _ _ Hrun) as [Hres _].
  split; [|split; [|split; [|split; [done|]]]].
  - intros e. split.
    + intros ->. unfold build_resized in Hrun.
      destruct (exists_ (w_fs w) t) as [[]|e']; [done| |congruence].
      destruct (negb PIL_AVAILABLE); [done|].
      by destruct (resize_and_save _ _ _ _ _) as [? []].
    + intros He. unfold build_resized in Hrun. rewrite He in Hrun. congruence.
  - intros e ->. unfold build_resized in Hrun.
    destruct (exists_ (w_fs w) t) as [[]|e']; [done| |congruence].
    destruct (negb PIL_AVAILABLE); [done|].
    by destruct (resize_and_save _ _ _ _ _) as [? []].
  - unfold build_resized in Hrun. intros [Hex|[Hex Hpil]]; rewrite Hex in Hrun.
    + congruence.
    + rewrite Hpil in Hrun. simpl in Hrun. congruence.
  - intros -> q d Hq.
    apply build_resized_cases in Hrun
      as [(e & _ & _ & [=])|[(-> & _)|[(_ & _ & _ & _ & Hd)|Hsave]]].
    + by exists d.
    + exists d. by eapply dirs_added_file.
    + destruct Hsave as (_ & _ & _ & fs1 & img & r' & Hd & _ & Hs & Hr).
      destruct r' as [[]|e]; [done|].
      apply save_jpeg_cases in Hs as [_ [(e' & _ & Hfs)|(k & d' & _ & Hfs & Hcase)]];
        simpl in Hfs; rewrite Hfs in Hq.
      * exists d. by eapply dirs_added_file.
      * destruct Hcase as [[[=] _]|(e' & d0 & _ & Hd0 & _)].
        simpl in Hq. rewrite assoc_put_file in Hq.
        destruct (decide (k = q)) as [->|Hne].
        -- exists d0. by eapply dirs_added_file.
        -- exists d. by eapply dirs_added_file.
Qed.
